(** * bf-chat: the tape machine, the transform protocol and the session registry

    A shallow embedding of [bfchatattempt.py]: the Brainfuck interpreter
    [ImprovedBrainfuckEngine], the Caesar-shift protocol built on it
    ([ImprovedBrainfuckChatProtocol]) and the parts of [ImprovedChatServer]
    that send, disconnect and dispatch commands.

    Conventions.
    - A Python [str] is the list of its code points ([pystr]); a Python list
      of ints is a [list Z] in the same order, so [append] adds at the end
      and [pop()] removes the last element.
    - Python's [while] loops get a fuel argument; running out of fuel is a
      separate outcome ([Fuel]) that the theorems show never happens for the
      fuel the definitions pass.
    - [IndexError] is an outcome of its own ([Exn]); [execute] turns it into
      [False] as its [except Exception] clause does. *)

From Stdlib Require Import ZArith String Ascii.
From stdpp Require Import base tactics option functions list pretty.

Local Open Scope Z_scope.

(** ** Python values *)

Definition pystr := list Z.

Definition ord (c : ascii) : Z := Z.of_nat (nat_of_ascii c).

Fixpoint str (s : string) : pystr :=
  match s with
  | EmptyString => []
  | String c r => ord c :: str r
  end.

Definition len {A} (l : list A) : Z := Z.of_nat (length l).

(** [l[i]] with Python's indexing: [-len l <= i < 0] counts from the end,
    anything outside [-len l, len l) raises [IndexError] ([None]). *)
Definition py_index {A} (l : list A) (i : Z) : option nat :=
  if bool_decide (0 <= i < len l) then Some (Z.to_nat i)
  else if bool_decide (- len l <= i < 0) then Some (Z.to_nat (i + len l))
  else None.

Definition py_get {A} (l : list A) (i : Z) : option A :=
  match py_index l i with
  | Some k => l !! k
  | None => None
  end.

Definition py_set {A} (l : list A) (i : Z) (v : A) : option (list A) :=
  match py_index l i with
  | Some k => Some (<[k := v]> l)
  | None => None
  end.

(** [l.pop()] on a non-empty list. *)
Definition py_pop {A} (l : list A) : option (A * list A) :=
  match last l with
  | Some x => Some (x, removelast l)
  | None => None
  end.

(** What a Python computation with loops and exceptions can end in. *)
Inductive outcome (A : Type) : Type :=
  | Val (a : A)
  | Exn
  | Fuel.
Arguments Val {A} a.
Arguments Exn {A}.
Arguments Fuel {A}.

(** ** ImprovedBrainfuckEngine *)

Module Engine.

Record engine := mk_engine {
  memory : list Z;
  pointer : Z;
  input_buffer : list Z;
  output_buffer : list Z
}.

Definition set_memory (e : engine) (m : list Z) : engine :=
  mk_engine m (pointer e) (input_buffer e) (output_buffer e).
Definition set_pointer (e : engine) (p : Z) : engine :=
  mk_engine (memory e) p (input_buffer e) (output_buffer e).
Definition set_input (e : engine) (i : list Z) : engine :=
  mk_engine (memory e) (pointer e) i (output_buffer e).
Definition set_output (e : engine) (o : list Z) : engine :=
  mk_engine (memory e) (pointer e) (input_buffer e) o.

(** [reset]: every field is overwritten, whatever the machine held. *)
Definition reset (e : engine) : engine :=
  mk_engine (replicate 1000 0) 0 [] [].

(** [__init__] only calls [reset]. *)
Definition init : engine := mk_engine (replicate 1000 0) 0 [] [].

(** [load_input]: both branches store the data reversed. *)
Definition load_input (e : engine) (data : pystr) : engine :=
  set_input e (reverse data).

(** The forward scan of the '[' case:
    [while ip < len(code) and bracket_count > 0]. *)
Fixpoint scan_forward (fuel : nat) (code : pystr) (ip bracket_count : Z)
  : outcome Z :=
  if (ip <? len code) && (0 <? bracket_count) then
    match fuel with
    | O => Fuel
    | S fuel' =>
      match py_get code ip with
      | None => Exn
      | Some c =>
        let bracket_count :=
          if c =? ord "[" then bracket_count + 1
          else if c =? ord "]" then bracket_count - 1
          else bracket_count in
        scan_forward fuel' code (ip + 1) bracket_count
      end
    end
  else Val ip.

(** The backward scan of the ']' case:
    [while ip >= 0 and bracket_count > 0]. *)
Fixpoint scan_backward (fuel : nat) (code : pystr) (ip bracket_count : Z)
  : outcome Z :=
  if (0 <=? ip) && (0 <? bracket_count) then
    match fuel with
    | O => Fuel
    | S fuel' =>
      match py_get code ip with
      | None => Exn
      | Some c =>
        let bracket_count :=
          if c =? ord "]" then bracket_count + 1
          else if c =? ord "[" then bracket_count - 1
          else bracket_count in
        scan_backward fuel' code (ip - 1) bracket_count
      end
    end
  else Val ip.

(** [self.memory[self.pointer] = v] *)
Definition store (e : engine) (v : Z) : engine * outcome unit :=
  match py_set (memory e) (pointer e) v with
  | Some m => (set_memory e m, Val tt)
  | None => (e, Exn)
  end.

(** The body of the main loop up to, and without, [ip += 1; steps += 1]:
    the machine after the instruction and the value of [ip] it leaves.
    The scans get [length code] as fuel. *)
Definition step (code : pystr) (e : engine) (ip : Z) : engine * outcome Z :=
  match py_get code ip with
  | None => (e, Exn)
  | Some cmd =>
    if cmd =? ord ">" then
      (set_pointer e (Z.min (pointer e + 1) (len (memory e) - 1)), Val ip)
    else if cmd =? ord "<" then
      (set_pointer e (Z.max (pointer e - 1) 0), Val ip)
    else if cmd =? ord "+" then
      match py_get (memory e) (pointer e) with
      | None => (e, Exn)
      | Some v =>
        match store e ((v + 1) mod 256) with
        | (e', Val _) => (e', Val ip)
        | (e', _) => (e', Exn)
        end
      end
    else if cmd =? ord "-" then
      match py_get (memory e) (pointer e) with
      | None => (e, Exn)
      | Some v =>
        match store e ((v - 1) mod 256) with
        | (e', Val _) => (e', Val ip)
        | (e', _) => (e', Exn)
        end
      end
    else if cmd =? ord "." then
      match py_get (memory e) (pointer e) with
      | None => (e, Exn)
      | Some v => (set_output e (output_buffer e ++ [v]), Val ip)
      end
    else if cmd =? ord "," then
      match py_pop (input_buffer e) with
      | Some (x, rest) =>
        match store (set_input e rest) x with
        | (e', Val _) => (e', Val ip)
        | (e', _) => (e', Exn)
        end
      | None =>
        match store e 0 with
        | (e', Val _) => (e', Val ip)
        | (e', _) => (e', Exn)
        end
      end
    else if cmd =? ord "[" then
      match py_get (memory e) (pointer e) with
      | None => (e, Exn)
      | Some v =>
        if v =? 0 then
          match scan_forward (length code) code (ip + 1) 1 with
          | Val ip' => (e, Val (ip' - 1))
          | Exn => (e, Exn)
          | Fuel => (e, Fuel)
          end
        else (e, Val ip)
      end
    else if cmd =? ord "]" then
      match py_get (memory e) (pointer e) with
      | None => (e, Exn)
      | Some v =>
        if negb (v =? 0) then
          match scan_backward (length code) code (ip - 1) 1 with
          | Val ip' => (e, Val ip')
          | Exn => (e, Exn)
          | Fuel => (e, Fuel)
          end
        else (e, Val ip)
      end
    else (e, Val ip)
  end.

(** The main loop, [while ip < len(code) and steps < max_steps]; its value
    is the pair [(ip, steps)] at the exit of the loop. *)
Fixpoint run (fuel : nat) (code : pystr) (max_steps : Z)
    (e : engine) (ip steps : Z) : engine * outcome (Z * Z) :=
  if (ip <? len code) && (steps <? max_steps) then
    match fuel with
    | O => (e, Fuel)
    | S fuel' =>
      match step code e ip with
      | (e', Val ip') => run fuel' code max_steps e' (ip' + 1) (steps + 1)
      | (e', Exn) => (e', Exn)
      | (e', Fuel) => (e', Fuel)
      end
    end
  else (e, Val (ip, steps)).

(** [execute]: [None] only if the model's fuel ran out; an exception is
    caught and gives [False]. The main loop gets [max_steps] as fuel. *)
Definition execute (e : engine) (code : pystr) (max_steps : Z)
  : option (bool * engine) :=
  match run (Z.to_nat max_steps) code max_steps (set_output e []) 0 0 with
  | (e', Val (ip, steps)) => Some (steps <? max_steps, e')
  | (e', Exn) => Some (false, e')
  | (_, Fuel) => None
  end.

(** [get_output_string]: [chr] cannot fail on 0..127, so the [except]
    branch is dead. *)
Definition get_output_string (e : engine) : pystr :=
  filter (fun b => 0 <= b <= 127) (output_buffer e).

End Engine.

Import Engine.

(** ** Well-formed machines and instruction counts

    [reset] leaves the cursor inside the tape, and no instruction moves it
    out or changes the length of the tape. *)

Definition wf (e : engine) : Prop := 0 <= pointer e < len (memory e).

(** The cell under the cursor, [self.memory[self.pointer]]. *)
Definition cell (e : engine) : option Z := py_get (memory e) (pointer e).

(** [exec_n n code e ip]: the machine and the cursor after exactly [n]
    instructions, each fetched with the cursor inside the program and none
    raising; [None] when the program cannot take [n] instructions. *)
Fixpoint exec_n (n : nat) (code : pystr) (e : engine) (ip : Z)
  : option (engine * Z) :=
  match n with
  | O => Some (e, ip)
  | S n' =>
    if ip <? len code then
      match step code e ip with
      | (e', Val ip') => exec_n n' code e' (ip' + 1)
      | _ => None
      end
    else None
  end.

(** The machine after [self.memory[self.pointer] = v] when the cursor is
    inside the tape. *)
Definition poke (e : engine) (v : Z) : engine :=
  set_memory e (<[Z.to_nat (pointer e) := v]> (memory e)).

(** How often the character [c] occurs in [l]. *)
Fixpoint count (c : Z) (l : pystr) : Z :=
  match l with
  | [] => 0
  | x :: l' => (if x =? c then 1 else 0) + count c l'
  end.

(** The '[' at [ip] has no matching ']': no stretch of the program that
    starts right behind it closes more brackets than it opens. *)
Definition unmatched (code : pystr) (ip : Z) : Prop :=
  forall k : nat,
    count (ord "]") (take k (drop (Z.to_nat (ip + 1)) code))
    <= count (ord "[") (take k (drop (Z.to_nat (ip + 1)) code)).

(** ** ImprovedBrainfuckChatProtocol *)

Module Protocol.

Definition encrypt_program : pystr := str ",[+.,]".
Definition decrypt_program : pystr := str ",[-.,]".

(** [self.bf.reset(); self.bf.load_input(data)], the two statements every
    caller of [execute] in this file starts with. *)
Definition prepare (bf : engine) (data : pystr) : engine :=
  load_input (reset bf) data.

(** [result if result else message] *)
Definition or_else (result message : pystr) : pystr :=
  match result with
  | [] => message
  | _ :: _ => result
  end.

(** [encrypt_message]: the text returned and the machine left behind.
    [execute] is called with its default [max_steps=50000]. Nothing in the
    body raises, so the outer [except] is dead. *)
Definition encrypt_message (bf : engine) (message : pystr)
  : option (pystr * engine) :=
  match execute (prepare bf message) encrypt_program 50000 with
  | Some (true, bf') => Some (or_else (get_output_string bf') message, bf')
  | Some (false, bf') => Some (message, bf')
  | None => None
  end.

Definition decrypt_message (bf : engine) (encrypted_message : pystr)
  : option (pystr * engine) :=
  match execute (prepare bf encrypted_message) decrypt_program 50000 with
  | Some (true, bf') =>
      Some (or_else (get_output_string bf') encrypted_message, bf')
  | Some (false, bf') => Some (encrypted_message, bf')
  | None => None
  end.

(** The [for char in message] loop of [validate_message]. *)
Fixpoint all_printable (message : pystr) : bool :=
  match message with
  | [] => true
  | char :: rest =>
    if (char <? 32) || (126 <? char) then false else all_printable rest
  end.

Definition validate_message (message : pystr) : bool :=
  if bool_decide (message = []) || (1000 <? len message) then false
  else all_printable message.

(** [decrypt_message(encrypt_message(x))] on one protocol object. *)
Definition roundtrip (bf : engine) (x : pystr) : option pystr :=
  match encrypt_message bf x with
  | Some (y, bf') =>
    match decrypt_message bf' y with
    | Some (z, _) => Some z
    | None => None
    end
  | None => None
  end.

End Protocol.

Import Protocol.

(** The two programs differ in one instruction, [+] (43) or [-] (45). *)
Definition caesar (op : Z) : pystr := [44; 91; op; 46; 44; 93].

(** What the loop body of [caesar op] does to a cell. *)
Definition shift (op : Z) (v : Z) : Z :=
  if op =? 43 then (v + 1) mod 256 else (v - 1) mod 256.

(** ** ImprovedChatServer

    One thread of the server: [self.lock] is a [threading.Lock], which is
    not re-entrant, so a [with self.lock] entered while the lock is held
    blocks; with the holder being the blocked thread itself nothing can
    release it ([Deadlock]). Sockets are numbered; the world records what
    was handed to [send] (the text, before its UTF-8 encoding) and which
    sockets [close] was called on, and says for which sockets [send] raises.
    Console output ([print]) is left out. *)

Module Server.

(** The dict stored per client. [connected_at] and [address] are never
    read by the code modelled here. *)
Record client_info := mk_client_info {
  socket : nat;
  address : pystr * Z;
  connected_at : Z;
  active : bool
}.

Definition set_active (c : client_info) (b : bool) : client_info :=
  mk_client_info (socket c) (address c) (connected_at c) b.

Record server := mk_server {
  (** [self.clients], in insertion order: client id to the reference of
      its [client_info] dict *)
  clients : list (pystr * nat);
  (** the [client_info] dicts by reference; a handler thread keeps its
      reference after the entry is deleted *)
  heap : nat -> client_info;
  client_counter : Z;
  (** [self.protocol.bf] *)
  bf : engine;
  running : bool;
  (** [self.lock] is held *)
  lock_held : bool;
  (** the world: texts sent per socket, in order; sockets closed, in
      order; sockets whose [send] raises; [time.strftime("%H:%M:%S")] *)
  sent : list (nat * pystr);
  closed : list nat;
  send_raises : nat -> bool;
  wall_clock : pystr
}.

Definition set_clients (s : server) (c : list (pystr * nat)) : server :=
  mk_server c (heap s) (client_counter s) (bf s) (running s) (lock_held s)
            (sent s) (closed s) (send_raises s) (wall_clock s).
Definition set_heap (s : server) (h : nat -> client_info) : server :=
  mk_server (clients s) h (client_counter s) (bf s) (running s) (lock_held s)
            (sent s) (closed s) (send_raises s) (wall_clock s).
Definition set_bf (s : server) (e : engine) : server :=
  mk_server (clients s) (heap s) (client_counter s) e (running s)
            (lock_held s) (sent s) (closed s) (send_raises s) (wall_clock s).
Definition set_lock (s : server) (b : bool) : server :=
  mk_server (clients s) (heap s) (client_counter s) (bf s) (running s) b
            (sent s) (closed s) (send_raises s) (wall_clock s).
Definition set_sent (s : server) (l : list (nat * pystr)) : server :=
  mk_server (clients s) (heap s) (client_counter s) (bf s) (running s)
            (lock_held s) l (closed s) (send_raises s) (wall_clock s).
Definition set_closed (s : server) (l : list nat) : server :=
  mk_server (clients s) (heap s) (client_counter s) (bf s) (running s)
            (lock_held s) (sent s) l (send_raises s) (wall_clock s).

(** What a call on the server ends in. *)
Inductive result (A : Type) : Type :=
  | Returned (a : A) (s : server)
  | Deadlock (s : server)
  | NoFuel.
Arguments Returned {A} a s.
Arguments Deadlock {A} s.
Arguments NoFuel {A}.

(** [with self.lock: body] *)
Definition with_lock {A} (body : server -> result A) (s : server) : result A :=
  if lock_held s then Deadlock s
  else
    match body (set_lock s true) with
    | Returned a s' => Returned a (set_lock s' false)
    | Deadlock s' => Deadlock s'
    | NoFuel => NoFuel
    end.

(** [sock.send(message.encode('utf-8'))]; [None] when it raises. *)
Definition sock_send (s : server) (sock : nat) (message : pystr)
  : option server :=
  if send_raises s sock then None
  else Some (set_sent s (sent s ++ [(sock, message)])).

(** [try: sock.close() except: pass]: the call is recorded, an error of
    [close] is swallowed. *)
Definition sock_close (s : server) (sock : nat) : server :=
  set_closed s (closed s ++ [sock]).

(** [self.clients.get(client_id)] *)
Fixpoint dict_get (d : list (pystr * nat)) (client_id : pystr) : option nat :=
  match d with
  | [] => None
  | (k, r) :: d' => if bool_decide (k = client_id) then Some r
                    else dict_get d' client_id
  end.

(** [del self.clients[client_id]] *)
Fixpoint dict_del (d : list (pystr * nat)) (client_id : pystr)
  : list (pystr * nat) :=
  match d with
  | [] => []
  | (k, r) :: d' => if bool_decide (k = client_id) then d'
                    else (k, r) :: dict_del d' client_id
  end.

(** The first loop of [broadcast_system_message], over
    [self.clients.items()]: the server after the sends and
    [clients_to_remove]. *)
Fixpoint fan_out (message : pystr) (exclude : option pystr)
    (items : list (pystr * nat)) (s : server) (clients_to_remove : list pystr)
  : server * list pystr :=
  match items with
  | [] => (s, clients_to_remove)
  | (client_id, r) :: items' =>
    if bool_decide (Some client_id <> exclude) && active (heap s r) then
      match sock_send s (socket (heap s r)) message with
      | Some s' => fan_out message exclude items' s' clients_to_remove
      | None =>
          fan_out message exclude items' s (clients_to_remove ++ [client_id])
      end
    else fan_out message exclude items' s clients_to_remove
  end.

(** [for client_id in clients_to_remove: self.disconnect_client(client_id)] *)
Fixpoint for_each (f : pystr -> server -> result unit) (l : list pystr)
    (s : server) : result unit :=
  match l with
  | [] => Returned tt s
  | client_id :: l' =>
    match f client_id s with
    | Returned _ s' => for_each f l' s'
    | Deadlock s' => Deadlock s'
    | NoFuel => NoFuel
    end
  end.

(** [broadcast_system_message], with [disconnect_client] as a parameter
    (the two methods call each other). *)
Definition broadcast_system_message
    (disconnect_client : pystr -> server -> result unit)
    (message : pystr) (exclude : option pystr) : server -> result unit :=
  with_lock (fun s =>
    let '(s', clients_to_remove) := fan_out message exclude (clients s) s [] in
    for_each disconnect_client clients_to_remove s').

(** U+1F4E4, then the text of the departure notice. *)
Definition left_the_chat (client_id : pystr) : pystr :=
  [128228] ++ str " " ++ client_id ++ str " left the chat".

(** [disconnect_client]; the fuel bounds the depth of the calls between it
    and [broadcast_system_message]. [client_info] is a dict of four keys,
    so [if client_info] only asks whether the entry exists. *)
Fixpoint disconnect_client (fuel : nat) (client_id : pystr) (s : server)
  : result unit :=
  match fuel with
  | O => NoFuel
  | S fuel' =>
    with_lock (fun s =>
      match dict_get (clients s) client_id with
      | Some r =>
        let client_info := heap s r in
        let s := set_heap s (<[r := set_active client_info false]> (heap s)) in
        let s := sock_close s (socket client_info) in
        let s := set_clients s (dict_del (clients s) client_id) in
        broadcast_system_message (disconnect_client fuel')
          (left_the_chat client_id) (Some client_id) s
      | None => Returned tt s
      end) s
  end.

(** [send_to_client] *)
Definition send_to_client (fuel : nat) (client_id message : pystr)
  : server -> result bool :=
  with_lock (fun s =>
    match dict_get (clients s) client_id with
    | Some r =>
      if active (heap s r) then
        match sock_send s (socket (heap s r)) message with
        | Some s' => Returned true s'
        | None =>
          match disconnect_client fuel client_id s with
          | Returned _ s' => Returned false s'
          | Deadlock s' => Deadlock s'
          | NoFuel => NoFuel
          end
        end
      else Returned false s
    | None => Returned false s
    end).

(** A statement [self.send_to_client(...)] whose value is dropped. *)
Definition send_to_client_ (fuel : nat) (client_id message : pystr)
    (s : server) : result unit :=
  match send_to_client fuel client_id message s with
  | Returned _ s' => Returned tt s'
  | Deadlock s' => Deadlock s'
  | NoFuel => NoFuel
  end.

(** [command.startswith(prefix)] *)
Definition startswith (command prefix : pystr) : bool :=
  bool_decide (take (length prefix) command = prefix).

(** [', '.join(keys)] *)
Fixpoint join (sep : pystr) (keys : list pystr) : pystr :=
  match keys with
  | [] => []
  | [k] => k
  | k :: keys' => k ++ sep ++ join sep keys'
  end.

(** The replies of the [/bf] command; U+1F9E0 and U+274C lead them. *)
Definition bf_output_reply (bf_output : pystr) : pystr :=
  [129504] ++ str " BF Output: '" ++ bf_output ++ str "'".
Definition bf_error_reply : pystr :=
  [10060] ++ str " BF Error: Program failed or exceeded step limit".

Definition help_msg : pystr :=
  [128304] ++ str " Available Commands:" ++ [10]
  ++ str "/users - Show connected users" ++ [10]
  ++ str "/time - Show server time" ++ [10]
  ++ str "/bf <code> - Execute Brainfuck code" ++ [10]
  ++ str "/help - Show this help" ++ [10]
  ++ str "/quit - Disconnect from chat".

(** [handle_command]. In the [/bf] branch nothing raises: [execute] and
    [send_to_client] catch their own exceptions. *)
Definition handle_command (fuel : nat) (client_id command : pystr)
    (s : server) : result unit :=
  if bool_decide (command = str "/users") then
    match with_lock (fun s =>
            Returned ([128101] ++ str " Connected users: "
                      ++ join (str ", ") (map fst (clients s))) s) s with
    | Returned user_list s' => send_to_client_ fuel client_id user_list s'
    | Deadlock s' => Deadlock s'
    | NoFuel => NoFuel
    end
  else if bool_decide (command = str "/time") then
    send_to_client_ fuel client_id
      ([128336] ++ str " Server time: " ++ wall_clock s) s
  else if startswith command (str "/bf ") then
    let bf_code := drop 4 command in
    match execute (prepare (bf s) (str "Hello!")) bf_code 5000 with
    | Some (success, bf') =>
      let response :=
        if success then bf_output_reply (get_output_string bf')
        else bf_error_reply in
      send_to_client_ fuel client_id response (set_bf s bf')
    | None => NoFuel
    end
  else if bool_decide (command = str "/help") then
    send_to_client_ fuel client_id help_msg s
  else
    send_to_client_ fuel client_id
      ([10067] ++ str " Unknown command. Type /help for available commands.") s.

End Server.

Import Server.

(** ** The rest of the server

    [broadcast_message], [cleanup_server], the body of the accept loop of
    [start] and [handle_client]. What [recv] and [accept] return comes from
    outside and is a parameter. *)

Definition set_running (s : server) (b : bool) : server :=
  mk_server (clients s) (heap s) (client_counter s) (bf s) b (lock_held s)
            (sent s) (closed s) (send_raises s) (wall_clock s).
Definition set_client_counter (s : server) (n : Z) : server :=
  mk_server (clients s) (heap s) n (bf s) (running s) (lock_held s)
            (sent s) (closed s) (send_raises s) (wall_clock s).

(** The sockets a broadcast that leaves out [exclude] sends to: those of
    the active clients with another identifier, in the order of the
    registry. *)
Fixpoint recipients (exclude : option pystr) (items : list (pystr * nat))
    (heap : nat -> client_info) : list nat :=
  match items with
  | [] => []
  | (client_id, r) :: items' =>
    if bool_decide (Some client_id <> exclude) && active (heap r)
    then socket (heap r) :: recipients exclude items' heap
    else recipients exclude items' heap
  end.

(** The first loop of [broadcast_message]: each text is encrypted anew,
    inside the [try] whose [except] collects the client. *)
Fixpoint fan_out_encrypted (broadcast_msg sender_id : pystr)
    (items : list (pystr * nat)) (s : server) (clients_to_remove : list pystr)
  : result (list pystr) :=
  match items with
  | [] => Returned clients_to_remove s
  | (client_id, r) :: items' =>
    if bool_decide (client_id <> sender_id) && active (heap s r) then
      match encrypt_message (bf s) broadcast_msg with
      | Some (encrypted_msg, bf') =>
        let s := set_bf s bf' in
        match sock_send s (socket (heap s r)) encrypted_msg with
        | Some s' =>
            fan_out_encrypted broadcast_msg sender_id items' s'
              clients_to_remove
        | None =>
            fan_out_encrypted broadcast_msg sender_id items' s
              (clients_to_remove ++ [client_id])
        end
      | None => NoFuel
      end
    else fan_out_encrypted broadcast_msg sender_id items' s clients_to_remove
  end.

(** [broadcast_message]; [broadcast_msg] is [f"{sender_id}: {message}"]. *)
Definition broadcast_message
    (disconnect_client : pystr -> server -> result unit)
    (sender_id message : pystr) : server -> result unit :=
  with_lock (fun s =>
    match fan_out_encrypted (sender_id ++ str ": " ++ message) sender_id
                            (clients s) s [] with
    | Returned clients_to_remove s' =>
        for_each disconnect_client clients_to_remove s'
    | Deadlock s' => Deadlock s'
    | NoFuel => NoFuel
    end).

(** The loop of [cleanup_server] over [list(self.clients.items())]. *)
Fixpoint close_all (items : list (pystr * nat)) (s : server) : server :=
  match items with
  | [] => s
  | (_, r) :: items' => close_all items' (sock_close s (socket (heap s r)))
  end.

(** [cleanup_server]; the listening socket is a socket like the others. *)
Definition cleanup_server (server_socket : nat) (s : server) : result unit :=
  match with_lock (fun s =>
          Returned tt (set_clients (close_all (clients s) s) []))
        (set_running s false) with
  | Returned _ s' => Returned tt (sock_close s' server_socket)
  | Deadlock s' => Deadlock s'
  | NoFuel => NoFuel
  end.

(** [f"Client_{n}"] *)
Definition client_name (n : Z) : pystr := str "Client_" ++ str (pretty n).

(** [self.clients[client_id] = r]: an existing key keeps its place. *)
Fixpoint dict_set (d : list (pystr * nat)) (client_id : pystr) (r : nat)
  : list (pystr * nat) :=
  match d with
  | [] => [(client_id, r)]
  | (k, r') :: d' => if bool_decide (k = client_id) then (k, r) :: d'
                     else (k, r') :: dict_set d' client_id r
  end.

(** U+1F9E0 and U+1F514 lead the welcome line and the join notice. *)
Definition welcome (client_id : pystr) : pystr :=
  [129504] ++ str " Welcome to Brainfuck Chat! You are " ++ client_id.
Definition joined_the_chat (client_id : pystr) : pystr :=
  [128276] ++ str " " ++ client_id ++ str " joined the chat".

(** The body of the accept loop of [start], after [accept] has returned
    [client_socket] and [address]; [now] is [time.time()] and [r] the
    reference of the new [client_info] dict. The value is the identifier
    whose handler thread is started; it is [None] when the welcome could not
    be sent, which the loop's [except] only prints. *)
Definition accept_client (fuel client_socket : nat) (address : pystr * Z)
    (now : Z) (r : nat) (s : server) : result (option pystr) :=
  match with_lock (fun s =>
          let s := set_client_counter s (client_counter s + 1) in
          let client_id := client_name (client_counter s) in
          let s := set_heap s
                     (<[r := mk_client_info client_socket address now true]>
                        (heap s)) in
          Returned client_id
                   (set_clients s (dict_set (clients s) client_id r))) s with
  | Returned client_id s =>
    match sock_send s client_socket (welcome client_id) with
    | Some s =>
      match broadcast_system_message (disconnect_client fuel)
              (joined_the_chat client_id) (Some client_id) s with
      | Returned _ s => Returned (Some client_id) s
      | Deadlock s => Deadlock s
      | NoFuel => NoFuel
      end
    | None => Returned None s
    end
  | Deadlock s => Deadlock s
  | NoFuel => NoFuel
  end.

(** What one [recv] of [handle_client] gives: [socket.timeout], the
    decoded data (empty at the end of the stream), or another exception. *)
Inductive recv_event : Type :=
  | recv_timeout
  | recv_data (data : pystr)
  | recv_error.

(** U+274C leads the notice. *)
Definition invalid_format : pystr := [10060] ++ str " Invalid message format".

(** The [while] loop of [handle_client]: one [recv] per round, so the
    events are its fuel. [Returned] is every way to the [finally] clause:
    the loop condition false, [break], and the outer [except]. *)
Fixpoint handle_client_loop (fuel : nat) (events : list recv_event)
    (client_id : pystr) (r : nat) (s : server) : result unit :=
  if running s && active (heap s r) then
    match events with
    | [] => NoFuel
    | recv_timeout :: events' => handle_client_loop fuel events' client_id r s
    | recv_error :: _ => Returned tt s
    | recv_data [] :: _ => Returned tt s
    | recv_data data :: events' =>
      match decrypt_message (bf s) data with
      | Some (decrypted_message, bf') =>
        let s := set_bf s bf' in
        if negb (validate_message decrypted_message) then
          match send_to_client fuel client_id invalid_format s with
          | Returned _ s' => handle_client_loop fuel events' client_id r s'
          | Deadlock s' => Deadlock s'
          | NoFuel => NoFuel
          end
        else if startswith decrypted_message (str "/") then
          match handle_command fuel client_id decrypted_message s with
          | Returned _ s' => handle_client_loop fuel events' client_id r s'
          | Deadlock s' => Deadlock s'
          | NoFuel => NoFuel
          end
        else
          match broadcast_message (disconnect_client fuel) client_id
                  decrypted_message s with
          | Returned _ s' => handle_client_loop fuel events' client_id r s'
          | Deadlock s' => Deadlock s'
          | NoFuel => NoFuel
          end
      | None => NoFuel
      end
    end
  else Returned tt s.

(** [handle_client]: the entry is looked up without the lock; the
    [finally] clause calls [disconnect_client]. *)
Definition handle_client (fuel : nat) (events : list recv_event)
    (client_id : pystr) (s : server) : result unit :=
  match dict_get (clients s) client_id with
  | Some r =>
    match handle_client_loop fuel events client_id r s with
    | Returned _ s' => disconnect_client fuel client_id s'
    | Deadlock s' => Deadlock s'
    | NoFuel => NoFuel
    end
  | None => Returned tt s
  end.

(** Every identifier in the registry was made from a value the counter
    has had. *)
Definition ids_bounded (s : server) : Prop :=
  forall client_id, client_id ∈ map fst (clients s) ->
    exists k, 1 <= k <= client_counter s /\ client_id = client_name k.

(** A server with two clients connected, both active, the lock free and
    nothing sent yet; the [client_info] of socket [r] has reference [r]. *)
Definition two_clients : server :=
  mk_server [(str "Client_1", 1%nat); (str "Client_2", 2%nat)]
            (fun r => mk_client_info r (str "127.0.0.1", 50000 + Z.of_nat r)
                                     0 true)
            2 init true false [] [] (fun _ => false) (str "12:00:00").

(** ** Further notions for the engine *)

(** What one instruction can do to the machine, whichever instruction it
    is and whether or not it raises. *)
Inductive effect (e : engine) : engine -> Prop :=
  | effect_none : effect e e
  | effect_move p :
      p = Z.min (pointer e + 1) (len (memory e) - 1)
      \/ p = Z.max (pointer e - 1) 0 ->
      effect e (set_pointer e p)
  | effect_arith k v0 v :
      cell e = Some v0 ->
      v = (v0 + 1) mod 256 \/ v = (v0 - 1) mod 256 ->
      effect e (set_memory e (<[k := v]> (memory e)))
  | effect_write v :
      cell e = Some v ->
      effect e (set_output e (output_buffer e ++ [v]))
  | effect_read rest x k :
      input_buffer e = rest ++ [x] ->
      effect e (set_memory (set_input e rest) (<[k := x]> (memory e)))
  | effect_read_raise rest x :
      input_buffer e = rest ++ [x] ->
      effect e (set_input e rest)
  | effect_eof k :
      input_buffer e = [] ->
      effect e (set_memory e (<[k := 0]> (memory e))).

(** The instructions strictly between the positions [i] and [j]. *)
Definition between (code : pystr) (i j : Z) : pystr :=
  take (Z.to_nat (j - i - 1)) (drop (Z.to_nat (i + 1)) code).

(** The '[' at [i] and the ']' at [j] match: the instructions between them
    never close more brackets than they have opened, and close as many as
    they open. *)
Definition matching (code : pystr) (i j : Z) : Prop :=
  0 <= i < j
  /\ py_get code i = Some (ord "[")
  /\ py_get code j = Some (ord "]")
  /\ (forall k : nat,
        count (ord "]") (take k (between code i j))
        <= count (ord "[") (take k (between code i j)))
  /\ count (ord "]") (between code i j) = count (ord "[") (between code i j).

(** ** Further notions for the protocol *)

(** The part of a text before its first character 0. *)
Fixpoint before_nul (x : pystr) : pystr :=
  match x with
  | [] => []
  | c :: x' => if c =? 0 then [] else c :: before_nul x'
  end.

(** * Properties *)

(** ** Python indexing *)

Section Indexing.
Context {A : Type}.
Implicit Types (l : list A) (i : Z).

Lemma len_nonneg l : 0 <= len l.
Proof. unfold len. lia. Qed.

Lemma py_index_inrange l i :
  0 <= i < len l -> py_index l i = Some (Z.to_nat i).
Proof. intros H. unfold py_index. by rewrite bool_decide_eq_true_2. Qed.

Lemma py_get_inrange l i :
  0 <= i < len l -> exists v, py_get l i = Some v /\ l !! Z.to_nat i = Some v.
Proof.
  intros H. unfold py_get. rewrite py_index_inrange by done.
  destruct (lookup_lt_is_Some_2 l (Z.to_nat i)) as [v Hv].
  - unfold len in H. lia.
  - eauto.
Qed.

Lemma py_get_lookup l i v :
  0 <= i -> l !! Z.to_nat i = Some v -> py_get l i = Some v.
Proof.
  intros Hi Hl. unfold py_get. rewrite py_index_inrange; [done|].
  apply lookup_lt_Some in Hl. unfold len. lia.
Qed.

Lemma py_set_inrange l i v :
  0 <= i < len l -> py_set l i v = Some (<[Z.to_nat i := v]> l).
Proof. intros H. unfold py_set. by rewrite py_index_inrange. Qed.

Lemma py_pop_snoc l x : py_pop (l ++ [x]) = Some (x, l).
Proof. unfold py_pop. by rewrite last_snoc, removelast_last. Qed.

Lemma py_pop_nil : py_pop (@nil A) = None.
Proof. done. Qed.
End Indexing.

(** ** Well-formed machines *)

Lemma wf_reset e : wf (reset e).
Proof.
  unfold wf, len, reset, memory, pointer. rewrite length_replicate. lia.
Qed.

Lemma wf_init : wf init.
Proof. apply (wf_reset init). Qed.

Lemma wf_load_input e data : wf e -> wf (load_input e data).
Proof. done. Qed.

Lemma wf_set_output e o : wf e -> wf (set_output e o).
Proof. done. Qed.

Lemma wf_set_input e i : wf e -> wf (set_input e i).
Proof. done. Qed.

Lemma wf_cell e : wf e -> exists v, cell e = Some v.
Proof.
  intros H. destruct (py_get_inrange (memory e) (pointer e) H) as (v & Hv & _).
  by exists v.
Qed.

Lemma store_wf e v :
  wf e ->
  store e v = (set_memory e (<[Z.to_nat (pointer e) := v]> (memory e)), Val tt).
Proof. intros H. unfold store. by rewrite py_set_inrange. Qed.

Lemma wf_set_memory_insert e k v :
  wf e -> wf (set_memory e (<[k := v]> (memory e))).
Proof. unfold wf, len. simpl. by rewrite length_insert. Qed.

Lemma cell_set_memory_insert e v :
  wf e ->
  cell (set_memory e (<[Z.to_nat (pointer e) := v]> (memory e))) = Some v.
Proof.
  intros H. unfold cell. simpl. apply py_get_lookup; [apply H|].
  apply list_lookup_insert_eq. unfold wf, len in H. lia.
Qed.

(** ** The bracket scans stop at the ends of the program *)

Lemma scan_forward_total code fuel : forall ip bc,
  0 <= ip -> (Z.to_nat (len code - ip) <= fuel)%nat ->
  exists ip', scan_forward fuel code ip bc = Val ip'
              /\ ip <= ip' <= Z.max ip (len code).
Proof.
  induction fuel as [|fuel IH]; intros ip bc Hip Hfuel; simpl.
  - destruct (Z.ltb_spec ip (len code)); [lia|]. simpl.
    exists ip. split; [done|lia].
  - destruct (Z.ltb_spec ip (len code)); simpl; [|exists ip; split; [done|lia]].
    destruct (Z.ltb_spec 0 bc); [|exists ip; split; [done|lia]].
    destruct (py_get_inrange code ip) as (c & -> & _); [lia|].
    edestruct (IH (ip + 1)) as (ip' & -> & Hb); [lia|lia|].
    exists ip'. split; [done|lia].
Qed.

Lemma scan_backward_total code fuel : forall ip bc,
  ip < len code -> (Z.to_nat (ip + 1) <= fuel)%nat ->
  exists ip', scan_backward fuel code ip bc = Val ip'
              /\ Z.min ip (-1) <= ip' <= ip.
Proof.
  induction fuel as [|fuel IH]; intros ip bc Hip Hfuel; simpl.
  - destruct (Z.leb_spec 0 ip); [lia|]. simpl.
    exists ip. split; [done|lia].
  - destruct (Z.leb_spec 0 ip); simpl; [|exists ip; split; [done|lia]].
    destruct (Z.ltb_spec 0 bc); [|exists ip; split; [done|lia]].
    destruct (py_get_inrange code ip) as (c & -> & _); [lia|].
    edestruct (IH (ip - 1)) as (ip' & -> & Hb); [lia|lia|].
    exists ip'. split; [done|lia].
Qed.

(** ** One instruction *)

(** With the cursor of the program in range, an instruction cannot use up
    the fuel of its scan, and it leaves [ip + 1] in [0, len code]. *)
Lemma step_no_fuel code e ip :
  0 <= ip < len code ->
  exists e', (step code e ip = (e', Exn)) \/
             (exists ip', step code e ip = (e', Val ip')
                          /\ -1 <= ip' < len code).
Proof.
  intros Hip. unfold step.
  destruct (py_get_inrange code ip Hip) as (cmd & -> & _).
  destruct (scan_forward_total code (length code) (ip + 1) 1)
    as (a & -> & Ha); [lia|unfold len; lia|].
  destruct (scan_backward_total code (length code) (ip - 1) 1)
    as (b & -> & Hb); [lia|unfold len in *; lia|].
  repeat case_match; simplify_eq; eauto 8 with lia.
Qed.

(** On a well-formed machine no instruction raises, and the machine stays
    well-formed. *)
Lemma step_wf code e ip :
  wf e -> 0 <= ip < len code ->
  exists e' ip', step code e ip = (e', Val ip') /\ wf e'
                 /\ -1 <= ip' < len code.
Proof.
  intros Hwf Hip. unfold step.
  destruct (py_get_inrange code ip Hip) as (cmd & -> & _).
  destruct (wf_cell e Hwf) as (v & Hv). unfold cell in Hv. rewrite Hv.
  destruct (scan_forward_total code (length code) (ip + 1) 1)
    as (a & -> & Ha); [lia|unfold len; lia|].
  destruct (scan_backward_total code (length code) (ip - 1) 1)
    as (b & -> & Hb); [lia|unfold len in *; lia|].
  destruct (py_pop (input_buffer e)) as [[x rest]|];
    rewrite !store_wf by done.
  all: pose proof (wf_set_memory_insert e).
  all: pose proof (fun r => wf_set_memory_insert (set_input e r)).
  all: assert (wf (set_pointer e (Z.min (pointer e + 1) (len (memory e) - 1))))
    by (unfold wf in *; simpl; lia).
  all: assert (wf (set_pointer e (Z.max (pointer e - 1) 0)))
    by (unfold wf in *; simpl; lia).
  all: repeat case_match; simplify_eq; eauto 8 with lia.
Qed.

(** ** The main loop *)

Section MainLoop.
Variables (code : pystr) (max_steps : Z).

(** The loop never uses up the fuel [max_steps - steps]. *)
Lemma run_no_fuel fuel : forall e ip steps,
  0 <= ip -> (Z.to_nat (max_steps - steps) <= fuel)%nat ->
  exists e', run fuel code max_steps e ip steps = (e', Exn) \/
             exists r, run fuel code max_steps e ip steps = (e', Val r).
Proof.
  induction fuel as [|fuel IH]; intros e ip steps Hip Hfuel; simpl.
  - destruct (Z.ltb_spec ip (len code)); simpl; [|by eauto].
    destruct (Z.ltb_spec steps max_steps); [lia|by eauto].
  - destruct (Z.ltb_spec ip (len code)); simpl; [|by eauto].
    destruct (Z.ltb_spec steps max_steps); [|by eauto].
    destruct (step_no_fuel code e ip) as (e1 & [->|(ip1 & -> & Hb)]);
      [lia|by eauto|].
    apply IH; lia.
Qed.

(** From a well-formed machine the loop ends normally, with the loop
    condition false. *)
Lemma run_wf fuel : forall e ip steps,
  wf e -> 0 <= ip -> (Z.to_nat (max_steps - steps) <= fuel)%nat ->
  exists e' ip' steps',
    run fuel code max_steps e ip steps = (e', Val (ip', steps'))
    /\ wf e' /\ (len code <= ip' \/ max_steps <= steps').
Proof.
  induction fuel as [|fuel IH]; intros e ip steps Hwf Hip Hfuel; simpl.
  - destruct (Z.ltb_spec ip (len code)); simpl; [|by eauto 8].
    destruct (Z.ltb_spec steps max_steps); [lia|by eauto 8].
  - destruct (Z.ltb_spec ip (len code)); simpl; [|by eauto 8].
    destruct (Z.ltb_spec steps max_steps); [|by eauto 8].
    destruct (step_wf code e ip) as (e1 & ip1 & -> & Hwf1 & Hb);
      [done|lia|].
    apply IH; [done|lia|lia].
Qed.

(** A run that ended normally took [steps' - steps] instructions. *)
Lemma run_exec_n fuel : forall e ip steps e' ip' steps',
  run fuel code max_steps e ip steps = (e', Val (ip', steps')) ->
  exec_n (Z.to_nat (steps' - steps)) code e ip = Some (e', ip')
  /\ steps <= steps'
  /\ (len code <= ip' \/ max_steps <= steps')
  /\ (steps < steps' -> steps' <= max_steps).
Proof.
  induction fuel as [|fuel IH]; intros e ip steps e' ip' steps'; simpl.
  - destruct (Z.ltb_spec ip (len code)); simpl;
      [destruct (Z.ltb_spec steps max_steps)|]; intros; simplify_eq;
      rewrite Z.sub_diag; simpl; split_and!; auto with lia.
  - destruct (Z.ltb_spec ip (len code)) as [Hlt|]; simpl;
      [destruct (Z.ltb_spec steps max_steps)|].
    2,3: intros; simplify_eq; rewrite Z.sub_diag; simpl;
         split_and!; auto with lia.
    destruct (step code e ip) as [e1 [ip1| |]] eqn:Hstep; [|done..].
    intros Hrun. apply IH in Hrun as (Hex & Hle & Hend & Hmax).
    replace (Z.to_nat (steps' - steps))
      with (S (Z.to_nat (steps' - (steps + 1)))) by lia.
    simpl. apply Z.ltb_lt in Hlt. rewrite Hlt, Hstep.
    split_and!; auto with lia.
Qed.

(** More fuel does not change a run that ended. *)
Lemma run_fuel_mono fuel : forall fuel' e ip steps e' r,
  run fuel code max_steps e ip steps = (e', r) -> r <> Fuel ->
  (fuel <= fuel')%nat ->
  run fuel' code max_steps e ip steps = (e', r).
Proof.
  induction fuel as [|fuel IH]; intros fuel' e ip steps e' r; simpl.
  - destruct ((ip <? len code) && (steps <? max_steps)) eqn:Hc.
    + intros; simplify_eq.
    + intros. destruct fuel'; simpl; by rewrite Hc.
  - destruct ((ip <? len code) && (steps <? max_steps)) eqn:Hc.
    + intros Hrun Hr Hle. destruct fuel' as [|fuel']; [lia|].
      simpl. rewrite Hc.
      destruct (step code e ip) as [e1 [ip1| |]]; [|done..].
      apply IH; [done|done|lia].
    + intros. destruct fuel'; simpl; by rewrite Hc.
Qed.
End MainLoop.

(** Once the cursor has left the program no further instruction runs. *)
Lemma exec_n_halt_unique code n : forall n' e ip e1 ip1 e2 ip2,
  exec_n n code e ip = Some (e1, ip1) -> len code <= ip1 ->
  exec_n n' code e ip = Some (e2, ip2) -> (n' <= n)%nat.
Proof.
  induction n as [|n IH]; intros n' e ip e1 ip1 e2 ip2; simpl.
  - intros ? Hlen. simplify_eq. destruct n'; simpl; [done|].
    destruct (Z.ltb_spec ip1 (len code)); [lia|done].
  - destruct (ip <? len code) eqn:Hlt; [|done].
    destruct (step code e ip) as [e3 [ip3| |]] eqn:Hstep; [|done..].
    intros Hex Hlen. destruct n'; simpl; [lia|].
    rewrite Hlt, Hstep. intros Hex'.
    pose proof (IH _ _ _ _ _ _ _ Hex Hlen Hex'). lia.
Qed.

(** [exec_n] is deterministic along a prefix: shorter executions exist. *)
Lemma exec_n_prefix code n : forall n' e ip r,
  exec_n n code e ip = Some r -> (n' <= n)%nat ->
  exists r', exec_n n' code e ip = Some r'.
Proof.
  induction n as [|n IH]; intros n' e ip r; simpl.
  - intros. replace n' with O by lia. by eauto.
  - destruct (ip <? len code) eqn:Hlt; [|done].
    destruct (step code e ip) as [e3 [ip3| |]] eqn:Hstep; [|done..].
    intros Hex Hle. destruct n'; simpl; [by eauto|].
    rewrite Hlt, Hstep. eapply IH; [done|lia].
Qed.

(** ** Runs and instruction counts *)

Section RunExec.
Variables (code : pystr) (max_steps : Z).

(** A program that halts after [n] more instructions, inside the budget,
    makes the loop end there. *)
Lemma run_exec_halt n : forall fuel e ip steps e1 ip1,
  exec_n n code e ip = Some (e1, ip1) -> len code <= ip1 ->
  steps + Z.of_nat n < max_steps -> (n <= fuel)%nat ->
  run fuel code max_steps e ip steps = (e1, Val (ip1, steps + Z.of_nat n)).
Proof.
  induction n as [|n IH]; intros fuel e ip steps e1 ip1; simpl exec_n.
  - intros ? Hlen _ _. simplify_eq.
    replace (steps + Z.of_nat 0) with steps by lia.
    destruct fuel; simpl; destruct (Z.ltb_spec ip1 (len code)); done || lia.
  - destruct (ip <? len code) eqn:Hlt; [|done].
    destruct (step code e ip) as [e3 [ip3| |]] eqn:Hstep; [|done..].
    intros Hex Hlen Hsteps Hfuel. destruct fuel as [|fuel]; [lia|].
    simpl. rewrite Hlt, Hstep.
    destruct (Z.ltb_spec steps max_steps); [|lia]. simpl.
    rewrite (IH fuel e3 (ip3 + 1) (steps + 1) e1 ip1) by (done || lia).
    do 3 f_equal. lia.
Qed.

(** A program that can take the instructions left in the budget makes the
    loop end with the budget used up. *)
Lemma run_exec_exhaust n : forall fuel e ip steps r,
  exec_n n code e ip = Some r ->
  max_steps <= steps + Z.of_nat n ->
  (Z.to_nat (max_steps - steps) <= fuel)%nat ->
  exists e' ip' steps',
    run fuel code max_steps e ip steps = (e', Val (ip', steps'))
    /\ max_steps <= steps'.
Proof.
  induction n as [|n IH]; intros fuel e ip steps r; simpl exec_n.
  - intros _ Hm _. exists e, ip, steps.
    destruct fuel; simpl; destruct (Z.ltb_spec steps max_steps);
      rewrite ?andb_false_r; (done || lia).
  - destruct (ip <? len code) eqn:Hlt; [|done].
    destruct (step code e ip) as [e3 [ip3| |]] eqn:Hstep; [|done..].
    intros Hex Hm Hfuel.
    destruct (Z.ltb_spec steps max_steps) as [Hs|Hs].
    + destruct fuel as [|fuel]; [lia|]. simpl. rewrite Hlt, Hstep.
      apply Z.ltb_lt in Hs as Hs'. rewrite Hs'. simpl.
      eapply IH; [done|lia|lia].
    + apply Z.ltb_ge in Hs as Hs'. exists e, ip, steps.
      destruct fuel; simpl; rewrite Hs', andb_false_r; (done || lia).
Qed.
End RunExec.

(** [execute] on a program that halts after [n] instructions: success
    exactly when [n < max_steps], and then the machine is the one the [n]
    instructions leave. *)
Lemma execute_of_exec_n e code max_steps n e1 ip1 :
  exec_n n code (set_output e []) 0 = Some (e1, ip1) -> len code <= ip1 ->
  exists e', execute e code max_steps
             = Some (bool_decide (Z.of_nat n < max_steps), e')
             /\ (Z.of_nat n < max_steps -> e' = e1).
Proof.
  intros Hex Hlen. unfold execute.
  destruct (decide (Z.of_nat n < max_steps)) as [Hn|Hn].
  - rewrite (run_exec_halt code max_steps n _ _ _ _ e1 ip1) by (done || lia).
    exists e1. rewrite bool_decide_eq_true_2 by done.
    split; [|done]. do 2 f_equal. lia.
  - destruct (exec_n_prefix code n (Z.to_nat max_steps) _ _ _ Hex)
      as [r Hr]; [lia|].
    destruct (run_exec_exhaust code max_steps _ (Z.to_nat max_steps) _ _ 0 _ Hr)
      as (e' & ip' & steps' & -> & Hs); [lia|lia|].
    exists e'. rewrite bool_decide_eq_false_2 by done.
    split; [|lia]. do 2 f_equal. lia.
Qed.

(** [execute] on a well-formed machine: it returns, [True] exactly when the
    program halts in fewer than [max_steps] instructions and [False]
    exactly when it can take [max_steps] instructions. *)
Lemma execute_spec e code max_steps :
  wf e ->
  exists b e', execute e code max_steps = Some (b, e') /\ wf e' /\
    (b = true <->
       exists n e1 ip1, Z.of_nat n < max_steps /\ len code <= ip1 /\
         exec_n n code (set_output e []) 0 = Some (e1, ip1)) /\
    (b = false <->
       exists r, exec_n (Z.to_nat max_steps) code (set_output e []) 0 = Some r).
Proof.
  intros Hwf. unfold execute.
  destruct (run_wf code max_steps (Z.to_nat max_steps) (set_output e []) 0 0)
    as (e' & ip' & steps' & Hrun & Hwf' & Hend); [done|lia|lia|].
  rewrite Hrun. exists (steps' <? max_steps), e'.
  pose proof Hrun as Hrun'.
  apply run_exec_n in Hrun as (Hex & Hle & _ & Hmax).
  rewrite Z.sub_0_r in Hex.
  assert (Hsucc : (steps' <? max_steps) = true ->
    exists n e1 ip1, Z.of_nat n < max_steps /\ len code <= ip1 /\
      exec_n n code (set_output e []) 0 = Some (e1, ip1)).
  { intros Hlt%Z.ltb_lt. exists (Z.to_nat steps'), e', ip'.
    split_and!; [lia|lia|done]. }
  split_and!; [done|done|split; [done|]|split].
  - intros (n & e1 & ip1 & Hn & Hlen & Hn').
    destruct (execute_of_exec_n e code max_steps n e1 ip1 Hn' Hlen)
      as (e2 & Hexec & _).
    unfold execute in Hexec. rewrite Hrun' in Hexec.
    rewrite bool_decide_eq_true_2 in Hexec by done. by simplify_eq.
  - intros Hge%Z.ltb_ge.
    destruct (decide (steps' = 0)) as [->|Hne].
    + replace (Z.to_nat max_steps) with O by lia. by eauto.
    + replace max_steps with steps' by lia. by eauto.
  - intros [r Hr]. destruct (steps' <? max_steps) eqn:Hlt; [|done].
    destruct (Hsucc eq_refl) as (n & e1 & ip1 & Hn & Hlen & Hn').
    destruct r as [e2 ip2].
    pose proof (exec_n_halt_unique code n _ _ _ _ _ _ _ Hn' Hlen Hr). lia.
Qed.

(** ** Termination of [execute] *)

(** Claim C3. [execute] returns for every machine, program and step budget:
    the model never runs out of the fuel it is given, which is [max_steps]
    for the main loop and the length of the program for each bracket scan.
    A forward scan started behind an instruction of the program stops at
    the end of the program at the latest, a backward scan started before
    one stops at -1 at the latest; neither raises. *)
Theorem execute_total (e : engine) (code : pystr) (max_steps : Z) :
  (exists b e', execute e code max_steps = Some (b, e'))
  /\ (forall ip bc, 0 <= ip < len code ->
        exists ip', scan_forward (length code) code (ip + 1) bc = Val ip'
                    /\ ip < ip' <= len code)
  /\ (forall ip bc, 0 <= ip < len code ->
        exists ip', scan_backward (length code) code (ip - 1) bc = Val ip'
                    /\ -1 <= ip' < ip).
Proof.
  split_and!.
  - unfold execute.
    destruct (run_no_fuel code max_steps (Z.to_nat max_steps)
                (set_output e []) 0 0) as (e' & [->|([ip steps] & ->)]);
      [lia|lia|by eauto..].
  - intros ip bc Hip.
    destruct (scan_forward_total code (length code) (ip + 1) bc)
      as (ip' & Hs & Hb); [lia|unfold len; lia|].
    exists ip'. split; [done|lia].
  - intros ip bc Hip.
    destruct (scan_backward_total code (length code) (ip - 1) bc)
      as (ip' & Hs & Hb); [lia|unfold len in *; lia|].
    exists ip'. split; [done|lia].
Qed.

Lemma execute_total_witness :
  (exists b e', execute init (str "[[]") 3 = Some (b, e'))
  /\ (exists ip', scan_forward 3 (str "[[]") (0 + 1) 1 = Val ip'
                  /\ 0 < ip' <= 3)
  /\ (exists ip', scan_backward 3 (str "[[]") (2 - 1) 1 = Val ip'
                  /\ -1 <= ip' < 2).
Proof.
  destruct (execute_total init (str "[[]") 3) as (H1 & H2 & H3).
  split_and!.
  - exact H1.
  - apply (H2 0 1). vm_compute. split; [discriminate|reflexivity].
  - apply (H3 2 1). vm_compute. split; [discriminate|reflexivity].
Defined.

(** ** Success and failure of [execute] *)

(** Claim C4. On a well-formed machine [execute] returns success exactly
    when the cursor of the program has left the program after fewer than
    [max_steps] instructions, and failure exactly when the program can take
    [max_steps] instructions, the budget being used up first; that includes
    the program whose last instruction is the [max_steps]-th. *)
Theorem execute_success_iff (e : engine) (code : pystr) (max_steps : Z) :
  wf e ->
  exists b e', execute e code max_steps = Some (b, e') /\
    (b = true <->
       exists n e1 ip1, Z.of_nat n < max_steps /\ len code <= ip1 /\
         exec_n n code (set_output e []) 0 = Some (e1, ip1)) /\
    (b = false <->
       exists r, exec_n (Z.to_nat max_steps) code (set_output e []) 0 = Some r).
Proof.
  intros Hwf.
  destruct (execute_spec e code max_steps Hwf) as (b & e' & H & _ & H1 & H2).
  by exists b, e'.
Qed.

(** The boundary case: [+] takes one instruction, and a budget of one
    makes it a failure. *)
Lemma execute_success_iff_witness :
  wf init /\
  exists b e', execute init (str "+") 1 = Some (b, e') /\
    (b = true <->
       exists n e1 ip1, Z.of_nat n < 1 /\ len (str "+") <= ip1 /\
         exec_n n (str "+") (set_output init []) 0 = Some (e1, ip1)) /\
    (b = false <->
       exists r, exec_n (Z.to_nat 1) (str "+") (set_output init []) 0 = Some r).
Proof.
  assert (H : wf init) by (vm_compute; split; [discriminate|reflexivity]).
  split; [exact H|]. apply (execute_success_iff init (str "+") 1 H).
Defined.

(** ** The program [+[+]] *)

Lemma plus_loop_exec bf data :
  exists e1, exec_n 766 (str "+[+]") (set_output (prepare bf data) []) 0
             = Some (e1, 4).
Proof. vm_compute. by eexists. Qed.

(** Claim C2, as the code has it. On a freshly reset machine, whatever the
    input, [+[+]] is not an infinite loop: the cell wraps around modulo 256
    and the program halts after 766 instructions. [execute] returns failure
    for every budget up to 766 and success for every larger one. *)
Theorem plus_loop_halts (bf : engine) (data : pystr) (max_steps : Z) :
  exists e', execute (prepare bf data) (str "+[+]") max_steps
             = Some (bool_decide (766 < max_steps), e').
Proof.
  destruct (plus_loop_exec bf data) as [e1 He1].
  destruct (execute_of_exec_n (prepare bf data) (str "+[+]") max_steps
              766 e1 4 He1) as (e' & He' & _); [by vm_compute|].
  by exists e'.
Qed.

(** Claim C2 fails as stated: with a budget of 5000 the call succeeds. *)
Lemma plus_loop_succeeds :
  execute init (str "+[+]") 5000 = Some (true, init).
Proof. by vm_compute. Qed.

(** ** [validate_message] *)

Lemma all_printable_Forall message :
  all_printable message = true <-> Forall (fun c => 32 <= c <= 126) message.
Proof.
  induction message as [|c message IH]; simpl.
  - split; [by constructor|done].
  - rewrite Forall_cons, <- IH.
    destruct (Z.ltb_spec c 32); simpl; [intuition (done || lia)|].
    destruct (Z.ltb_spec 126 c); simpl; intuition (done || lia).
Qed.

(** Claim C6. [validate_message] is true exactly for the texts of 1 to 1000
    characters whose code points all lie in 32..126; so it is false for the
    empty text, for a text of 1001 characters and for a text that holds a
    character 31 or 127. *)
Theorem validate_message_iff (text : pystr) :
  (validate_message text = true <->
     text <> [] /\ len text <= 1000 /\ Forall (fun c => 32 <= c <= 126) text)
  /\ validate_message [] = false
  /\ (len text = 1001 -> validate_message text = false)
  /\ (In 31 text \/ In 127 text -> validate_message text = false).
Proof.
  assert (Hiff : validate_message text = true <->
     text <> [] /\ len text <= 1000 /\ Forall (fun c => 32 <= c <= 126) text).
  { unfold validate_message. case_bool_decide as Hnil; simpl.
    - split; [done|]. by intros [? _].
    - destruct (Z.ltb_spec 1000 (len text)).
      + split; [done|]. lia.
      + rewrite all_printable_Forall. intuition lia. }
  split_and!; [done|done|..].
  - intros Hlen. apply not_true_is_false. rewrite Hiff. lia.
  - intros Hin. apply not_true_is_false. rewrite Hiff.
    intros (_ & _ & Hall). rewrite Forall_forall in Hall.
    destruct Hin as [Hin|Hin]; apply list_elem_of_In, Hall in Hin; lia.
Qed.

Lemma validate_message_iff_witness :
  (validate_message (replicate 1001 65) = false)
  /\ (validate_message (str "ab" ++ [127]) = false).
Proof.
  split.
  - destruct (validate_message_iff (replicate 1001 65)) as (_ & _ & H & _).
    apply H. vm_compute. reflexivity.
  - destruct (validate_message_iff (str "ab" ++ [127])) as (_ & _ & _ & H).
    apply H. right. vm_compute. tauto.
Defined.

(** ** Unmatched opening brackets *)

Lemma py_get_Some_range {A} (l : list A) i v :
  py_get l i = Some v -> 0 <= i -> i < len l /\ l !! Z.to_nat i = Some v.
Proof.
  unfold py_get, py_index. intros H Hi.
  case_bool_decide; [split; [lia|done]|].
  case_bool_decide; [lia|done].
Qed.

Lemma exec_n_add code a : forall b e ip,
  exec_n (a + b) code e ip =
  match exec_n a code e ip with
  | Some (e', ip') => exec_n b code e' ip'
  | None => None
  end.
Proof.
  induction a as [|a IH]; intros b e ip; simpl; [done|].
  destruct (ip <? len code); [|done].
  destruct (step code e ip) as [e1 [ip1| |]]; [|done..].
  apply IH.
Qed.

Lemma exec_n_S code n e ip e' ip' :
  0 <= ip < len code -> step code e ip = (e', Val ip') ->
  exec_n (S n) code e ip = exec_n n code e' (ip' + 1).
Proof.
  intros Hip Hstep. simpl. rewrite Hstep.
  by destruct (Z.ltb_spec ip (len code)); [|lia].
Qed.

(** A scan that never sees the depth come back to 0 runs to the end of the
    program. *)
Lemma scan_forward_unmatched code fuel : forall ip bc,
  0 <= ip -> (Z.to_nat (len code - ip) <= fuel)%nat ->
  (forall k : nat,
     count (ord "]") (take k (drop (Z.to_nat ip) code))
     < bc + count (ord "[") (take k (drop (Z.to_nat ip) code))) ->
  scan_forward fuel code ip bc = Val (Z.max ip (len code)).
Proof.
  induction fuel as [|fuel IH]; intros ip bc Hip Hfuel Hdepth; simpl.
  - destruct (Z.ltb_spec ip (len code)); [lia|]. simpl. f_equal. lia.
  - destruct (Z.ltb_spec ip (len code)); simpl; [|f_equal; lia].
    pose proof (Hdepth O) as H0. rewrite take_0 in H0. simpl in H0.
    destruct (Z.ltb_spec 0 bc); [|lia].
    destruct (py_get_inrange code ip) as (c & -> & Hc); [lia|].
    rewrite IH; [f_equal; lia|lia|lia|].
    intros k. specialize (Hdepth (S k)).
    rewrite (drop_S _ _ _ Hc) in Hdepth. simpl in Hdepth.
    replace (Z.to_nat (ip + 1)) with (S (Z.to_nat ip)) by lia.
    change (ord "[") with 91 in *. change (ord "]") with 93 in *.
    destruct (Z.eqb_spec c 91), (Z.eqb_spec c 93); lia.
Qed.

Lemma step_open_zero code e ip ip' :
  py_get code ip = Some (ord "[") -> cell e = Some 0 ->
  scan_forward (length code) code (ip + 1) 1 = Val ip' ->
  step code e ip = (e, Val (ip' - 1)).
Proof.
  unfold cell, step. intros -> -> ->. reflexivity.
Qed.

(** Claim C10. When, after [n] instructions, the machine is at a '[' with
    the current cell 0 and this bracket has no matching ']', the forward
    scan stops at the end of the program, the instruction leaves the cursor
    past the end of the program, and [execute] returns success as long as
    the budget exceeds the [n + 1] instructions taken. *)
Theorem unmatched_open_bracket_succeeds
    (e : engine) (code : pystr) (max_steps : Z) (n : nat)
    (e1 : engine) (ip1 : Z) :
  exec_n n code (set_output e []) 0 = Some (e1, ip1) ->
  0 <= ip1 -> py_get code ip1 = Some (ord "[") ->
  cell e1 = Some 0 ->
  unmatched code ip1 ->
  Z.of_nat n + 1 < max_steps ->
  scan_forward (length code) code (ip1 + 1) 1 = Val (len code)
  /\ exec_n (S n) code (set_output e []) 0 = Some (e1, len code)
  /\ execute e code max_steps = Some (true, e1).
Proof.
  intros Hex Hip Hcmd Hcell Hun Hn.
  destruct (py_get_Some_range _ _ _ Hcmd Hip) as [Hlt _].
  assert (Hscan : scan_forward (length code) code (ip1 + 1) 1 = Val (len code)).
  { rewrite scan_forward_unmatched; [f_equal; lia|lia|unfold len; lia|].
    intros k. specialize (Hun k). lia. }
  assert (Hex' : exec_n (S n) code (set_output e []) 0 = Some (e1, len code)).
  { replace (S n) with (n + 1)%nat by lia.
    rewrite exec_n_add, Hex.
    rewrite (exec_n_S code 0 e1 ip1 e1 (len code - 1)); [|lia|].
    - simpl. do 2 f_equal. lia.
    - by apply step_open_zero. }
  split_and!; [done|done|].
  destruct (execute_of_exec_n e code max_steps (S n) e1 (len code) Hex')
    as (e' & -> & He'); [lia|].
  rewrite He' by lia. by rewrite bool_decide_eq_true_2 by lia.
Qed.

(** The one-instruction program of a single '['. *)
Lemma unmatched_open_bracket_succeeds_witness :
  scan_forward (length (str "[")) (str "[") (0 + 1) 1 = Val (len (str "["))
  /\ exec_n 1 (str "[") (set_output init []) 0 = Some (init, len (str "["))
  /\ execute init (str "[") 2 = Some (true, init).
Proof.
  apply (unmatched_open_bracket_succeeds init (str "[") 2 0 init 0).
  - reflexivity.
  - lia.
  - reflexivity.
  - reflexivity.
  - intros k. destruct k; simpl; lia.
  - lia.
Defined.

(** ** Single instructions on a well-formed machine *)

Lemma wf_poke e v : wf e -> wf (poke e v).
Proof. apply wf_set_memory_insert. Qed.

Lemma cell_poke e v : wf e -> cell (poke e v) = Some v.
Proof. apply cell_set_memory_insert. Qed.

Section Instructions.
Variables (code : pystr) (e : engine) (ip : Z).
Hypothesis Hwf : wf e.

Lemma step_plus v :
  py_get code ip = Some 43 -> cell e = Some v ->
  step code e ip = (poke e ((v + 1) mod 256), Val ip).
Proof.
  unfold cell, step. intros -> ->.
  change (43 =? ord ">") with false. change (43 =? ord "<") with false.
  change (43 =? ord "+") with true. cbv iota. by rewrite store_wf.
Qed.

Lemma step_minus v :
  py_get code ip = Some 45 -> cell e = Some v ->
  step code e ip = (poke e ((v - 1) mod 256), Val ip).
Proof.
  unfold cell, step. intros -> ->.
  change (45 =? ord ">") with false. change (45 =? ord "<") with false.
  change (45 =? ord "+") with false. change (45 =? ord "-") with true.
  cbv iota. by rewrite store_wf.
Qed.

Lemma step_dot v :
  py_get code ip = Some 46 -> cell e = Some v ->
  step code e ip = (set_output e (output_buffer e ++ [v]), Val ip).
Proof. unfold cell, step. intros -> ->. reflexivity. Qed.

Lemma step_comma_pop rest x :
  py_get code ip = Some 44 -> input_buffer e = rest ++ [x] ->
  step code e ip = (poke (set_input e rest) x, Val ip).
Proof.
  unfold step. intros -> ->.
  change (44 =? ord ">") with false. change (44 =? ord "<") with false.
  change (44 =? ord "+") with false. change (44 =? ord "-") with false.
  change (44 =? ord ".") with false. change (44 =? ord ",") with true.
  cbv iota. rewrite py_pop_snoc. by rewrite store_wf.
Qed.

Lemma step_comma_eof :
  py_get code ip = Some 44 -> input_buffer e = [] ->
  step code e ip = (poke e 0, Val ip).
Proof.
  unfold step. intros -> ->.
  change (44 =? ord ">") with false. change (44 =? ord "<") with false.
  change (44 =? ord "+") with false. change (44 =? ord "-") with false.
  change (44 =? ord ".") with false. change (44 =? ord ",") with true.
  cbv iota. rewrite py_pop_nil. by rewrite store_wf.
Qed.

Lemma step_open_nonzero v :
  py_get code ip = Some 91 -> cell e = Some v -> v <> 0 ->
  step code e ip = (e, Val ip).
Proof.
  unfold cell, step. intros -> -> Hv%Z.eqb_neq.
  change (91 =? ord ">") with false. change (91 =? ord "<") with false.
  change (91 =? ord "+") with false. change (91 =? ord "-") with false.
  change (91 =? ord ".") with false. change (91 =? ord ",") with false.
  change (91 =? ord "[") with true. cbv iota. by rewrite Hv.
Qed.

Lemma step_close_zero :
  py_get code ip = Some 93 -> cell e = Some 0 ->
  step code e ip = (e, Val ip).
Proof. unfold cell, step. intros -> ->. reflexivity. Qed.

Lemma step_close_nonzero v ip' :
  py_get code ip = Some 93 -> cell e = Some v -> v <> 0 ->
  scan_backward (length code) code (ip - 1) 1 = Val ip' ->
  step code e ip = (e, Val ip').
Proof.
  unfold cell, step. intros -> -> Hv%Z.eqb_neq ->.
  change (93 =? ord ">") with false. change (93 =? ord "<") with false.
  change (93 =? ord "+") with false. change (93 =? ord "-") with false.
  change (93 =? ord ".") with false. change (93 =? ord ",") with false.
  change (93 =? ord "[") with false. change (93 =? ord "]") with true.
  cbv iota. by rewrite Hv.
Qed.
End Instructions.

(** ** The two Caesar programs *)

Lemma encrypt_program_caesar : encrypt_program = caesar 43.
Proof. reflexivity. Qed.

Lemma decrypt_program_caesar : decrypt_program = caesar 45.
Proof. reflexivity. Qed.

Section Caesar.
Variable op : Z.
Hypothesis Hop : op = 43 \/ op = 45.

Lemma caesar_len : len (caesar op) = 6.
Proof. reflexivity. Qed.

Lemma caesar_body e v :
  wf e -> cell e = Some v ->
  step (caesar op) e 2 = (poke e (shift op v), Val 2).
Proof.
  intros Hwf Hv. destruct Hop as [->| ->].
  - by apply step_plus.
  - by apply step_minus.
Qed.

Lemma caesar_scan_back :
  scan_backward (length (caesar op)) (caesar op) (4 + 1 - 1) 1 = Val 0.
Proof. destruct Hop as [H|H]; rewrite H; reflexivity. Qed.

(** The three instructions [[ op .] from the '[' with a non-zero cell: the
    cell is shifted and written out. *)
Lemma caesar_round e c :
  wf e -> cell e = Some c -> c <> 0 ->
  exists e3, exec_n 3 (caesar op) e 1 = Some (e3, 4)
    /\ wf e3 /\ cell e3 = Some (shift op c)
    /\ input_buffer e3 = input_buffer e
    /\ output_buffer e3 = output_buffer e ++ [shift op c].
Proof.
  intros Hwf Hc Hnz.
  pose proof (wf_poke e (shift op c) Hwf) as Hwf2.
  pose proof (cell_poke e (shift op c) Hwf) as Hc2.
  erewrite exec_n_S;
    [|rewrite caesar_len; lia|by eapply step_open_nonzero].
  erewrite exec_n_S;
    [|rewrite caesar_len; lia|by apply caesar_body].
  erewrite exec_n_S;
    [|rewrite caesar_len; lia|by apply step_dot].
  eexists. split; [reflexivity|]. by split_and!.
Qed.

(** The loop of [caesar op], entered at the '[' with the first character
    [c] in the cell and the characters [x] still to read, none of them 0:
    five instructions per character, and the shifted characters come out
    in order. *)
Lemma caesar_loop : forall (x : pystr) e c,
  wf e -> cell e = Some c -> c <> 0 ->
  input_buffer e = reverse x -> Forall (fun a => a <> 0) x ->
  exists e', exec_n (5 * S (length x)) (caesar op) e 1 = Some (e', 6)
    /\ output_buffer e' = output_buffer e ++ map (shift op) (c :: x).
Proof.
  induction x as [|a x IH]; intros e c Hwf Hc Hnz Hin Hall.
  - destruct (caesar_round e c) as (e3 & He3 & Hwf3 & _ & Hin3 & Hout3);
      [done..|].
    replace (5 * S (length (@nil Z)))%nat with (3 + 2)%nat by done.
    rewrite exec_n_add, He3.
    erewrite exec_n_S;
      [|rewrite caesar_len; lia
       |by apply step_comma_eof; [| |rewrite Hin3, Hin]].
    erewrite exec_n_S;
      [|rewrite caesar_len; lia
       |by apply step_close_zero; [|apply cell_poke]].
    eexists. split; [reflexivity|]. simpl. by rewrite Hout3.
  - apply Forall_cons in Hall as [Ha Hall].
    destruct (caesar_round e c) as (e3 & He3 & Hwf3 & _ & Hin3 & Hout3);
      [done..|].
    replace (5 * S (length (a :: x)))%nat
      with (3 + (2 + 5 * S (length x)))%nat by (simpl; lia).
    rewrite exec_n_add, He3.
    rewrite reverse_cons in Hin.
    assert (Hwf4 : wf (poke (set_input e3 (reverse x)) a))
      by by apply wf_poke.
    assert (Hc4 : cell (poke (set_input e3 (reverse x)) a) = Some a)
      by by apply cell_poke.
    change (2 + 5 * S (length x))%nat with (S (S (5 * S (length x))))%nat.
    erewrite exec_n_S;
      [|rewrite caesar_len; lia
       |by apply step_comma_pop; [| |rewrite Hin3, Hin]].
    erewrite exec_n_S;
      [|rewrite caesar_len; lia
       |by apply (step_close_nonzero _ _ _ a 0);
          [| | |apply caesar_scan_back]].
    destruct (IH (poke (set_input e3 (reverse x)) a) a)
      as (e' & He' & Hout'); [done..|].
    exists e'. split; [done|].
    rewrite Hout'. simpl. rewrite Hout3. by rewrite <- app_assoc.
Qed.

(** The whole program on a freshly loaded machine. *)
Lemma caesar_exec bf (x : pystr) :
  Forall (fun a => a <> 0) x ->
  exists e',
    exec_n (match x with [] => 2 | _ => 1 + 5 * length x end)
           (caesar op) (set_output (prepare bf x) []) 0 = Some (e', 6)
    /\ output_buffer e' = map (shift op) x.
Proof.
  intros Hall. destruct x as [|a x].
  - destruct Hop as [->| ->]; vm_compute; by eexists.
  - apply Forall_cons in Hall as [Ha Hall].
    set (e0 := set_output (prepare bf (a :: x)) []).
    assert (Hwf0 : wf e0) by apply wf_reset.
    erewrite exec_n_S;
      [|rewrite caesar_len; lia
       |by apply step_comma_pop; [| |simpl; apply reverse_cons]].
    destruct (caesar_loop x (poke (set_input e0 (reverse x)) a) a)
      as (e' & He' & Hout'); [by apply wf_poke|by apply cell_poke|done..|].
    replace (5 * length (a :: x))%nat with (5 * S (length x))%nat by done.
    exists e'. split; [done|]. by rewrite Hout'.
Qed.

(** [execute] on it: success for fewer than 10000 characters, with the
    shifted text as output; otherwise the budget of 50000 is used up. *)
Lemma caesar_execute bf (x : pystr) :
  Forall (fun a => a <> 0) x ->
  exists e', execute (prepare bf x) (caesar op) 50000
             = Some (bool_decide (len x < 10000), e')
    /\ (len x < 10000 -> output_buffer e' = map (shift op) x).
Proof.
  intros Hall. destruct (caesar_exec bf x Hall) as (e1 & He1 & Hout).
  destruct (execute_of_exec_n _ _ 50000 _ _ _ He1) as (e' & He' & Heq);
    [rewrite caesar_len; lia|].
  exists e'. rewrite He'. split.
  - do 2 f_equal. apply bool_decide_ext. unfold len.
    destruct x; simpl length; lia.
  - intros Hlen. rewrite Heq; [done|]. unfold len in Hlen.
    destruct x; simpl length in *; lia.
Qed.
End Caesar.

(** ** Round trip of the protocol *)

Lemma or_else_map (f : Z -> Z) (x : pystr) : or_else (map f x) x = map f x.
Proof. by destruct x. Qed.

Lemma or_else_unmap (f : Z -> Z) (x : pystr) : or_else x (map f x) = x.
Proof. by destruct x. Qed.

Lemma filter_ascii_all (l : list Z) :
  Forall (fun b => 0 <= b <= 127) l ->
  filter (fun b => 0 <= b <= 127) l = l.
Proof.
  induction 1 as [|b l Hb _ IH]; [done|].
  rewrite filter_cons_True by done. by rewrite IH.
Qed.

Lemma shift_up c : 1 <= c <= 126 -> shift 43 c = c + 1.
Proof. intros. unfold shift. simpl. apply Z.mod_small. lia. Qed.

Lemma shift_down c : 1 <= c <= 126 -> shift 45 (c + 1) = c.
Proof.
  intros. unfold shift. simpl. replace (c + 1 - 1) with c by lia.
  apply Z.mod_small. lia.
Qed.

(** Claim C1, as the code has it. For every text whose code points all lie
    in 1..126, decrypting the encryption gives the text back, whatever
    machine the protocol object held before. (Code point 0 is left out: it is
    the value [,] stores at the end of the input, so it ends the loop of
    both programs.) *)
Theorem roundtrip_without_nul (bf : engine) (x : pystr) :
  Forall (fun c => 1 <= c <= 126) x -> roundtrip bf x = Some x.
Proof.
  intros Hx.
  assert (Hnz : Forall (fun a => a <> 0) x)
    by (eapply Forall_impl; [exact Hx|simpl; lia]).
  assert (Hup : map (shift 43) x = map (fun c => c + 1) x).
  { apply Forall_fmap_ext_1. eapply Forall_impl; [exact Hx|]. apply shift_up. }
  destruct (caesar_execute 43 (or_introl eq_refl) bf x Hnz)
    as (e1 & He1 & Hout1).
  unfold roundtrip, encrypt_message.
  rewrite encrypt_program_caesar, He1.
  case_bool_decide as Hlen.
  - unfold get_output_string. rewrite Hout1 by done.
    rewrite filter_ascii_all, or_else_map.
    2:{ rewrite Hup, Forall_fmap.
        eapply Forall_impl; [exact Hx|]. simpl. lia. }
    destruct (caesar_execute 45 (or_intror eq_refl) e1 (map (shift 43) x))
      as (e2 & He2 & Hout2).
    { rewrite Hup, Forall_fmap. eapply Forall_impl; [exact Hx|]. simpl. lia. }
    unfold decrypt_message. rewrite decrypt_program_caesar, He2.
    assert (Hlen' : len (map (shift 43) x) < 10000)
      by (unfold len in *; by rewrite length_map).
    rewrite bool_decide_eq_true_2 by done.
    unfold get_output_string. rewrite Hout2 by done.
    assert (Hback : map (shift 45) (map (shift 43) x) = x).
    { rewrite Hup, <- list_fmap_compose. rewrite <- (list_fmap_id x) at 2.
      apply Forall_fmap_ext_1. eapply Forall_impl; [exact Hx|]. simpl.
      intros c Hc. by apply shift_down. }
    rewrite Hback, filter_ascii_all, or_else_unmap; [done|].
    eapply Forall_impl; [exact Hx|]. simpl. lia.
  - destruct (caesar_execute 45 (or_intror eq_refl) e1 x Hnz)
      as (e2 & He2 & _).
    unfold decrypt_message. rewrite decrypt_program_caesar, He2.
    by rewrite bool_decide_eq_false_2 by done.
Qed.

Lemma roundtrip_without_nul_witness :
  Forall (fun c => 1 <= c <= 126) (str "hi") /\
  roundtrip init (str "hi") = Some (str "hi").
Proof.
  assert (H : Forall (fun c => 1 <= c <= 126) (str "hi")).
  { repeat constructor; vm_compute; discriminate. }
  split; [exact H|]. apply (roundtrip_without_nul init (str "hi") H).
Defined.

(** Claim C1 fails as stated: a text with code point 0 in it, all of whose
    code points lie in 0..126, comes back cut off at that character. *)
Lemma roundtrip_nul_cut :
  Forall (fun c => 0 <= c <= 126) [97; 0; 98]
  /\ roundtrip init [97; 0; 98] = Some [97]
  /\ roundtrip init [97; 0; 98] <> Some [97; 0; 98].
Proof.
  split_and!.
  - repeat constructor; vm_compute; discriminate.
  - by vm_compute.
  - by vm_compute.
Qed.

(** ** Fallback of the protocol *)

(** The machine the protocol prepares is well-formed, so [execute] on it
    returns without an exception, and [False] only with the budget used
    up. *)
Lemma execute_prepared code bf message max_steps :
  exists ok bf', execute (prepare bf message) code max_steps = Some (ok, bf')
    /\ (ok = false ->
        exists r, exec_n (Z.to_nat max_steps) code
                         (set_output (prepare bf message) []) 0 = Some r).
Proof.
  destruct (execute_spec (prepare bf message) code max_steps)
    as (ok & bf' & Hex & _ & _ & Hfail); [apply wf_reset|].
  exists ok, bf'. split; [done|]. apply Hfail.
Qed.

(** Claim C7. [encrypt_message] and [decrypt_message] return for every
    text. When the execution fails, which happens only with the step budget
    of 50000 used up, or the filtered output is empty, they return the text
    they were given; otherwise they return the filtered output, which is
    not empty. *)
Theorem protocol_fallback (bf : engine) (message : pystr) :
  (exists ok bf',
     execute (prepare bf message) encrypt_program 50000 = Some (ok, bf')
     /\ (ok = false ->
         exists r, exec_n (Z.to_nat 50000) encrypt_program
                          (set_output (prepare bf message) []) 0 = Some r)
     /\ (ok = false \/ get_output_string bf' = [] ->
         encrypt_message bf message = Some (message, bf'))
     /\ (ok = true -> get_output_string bf' <> [] ->
         encrypt_message bf message = Some (get_output_string bf', bf')))
  /\
  (exists ok bf',
     execute (prepare bf message) decrypt_program 50000 = Some (ok, bf')
     /\ (ok = false ->
         exists r, exec_n (Z.to_nat 50000) decrypt_program
                          (set_output (prepare bf message) []) 0 = Some r)
     /\ (ok = false \/ get_output_string bf' = [] ->
         decrypt_message bf message = Some (message, bf'))
     /\ (ok = true -> get_output_string bf' <> [] ->
         decrypt_message bf message = Some (get_output_string bf', bf'))).
Proof.
  split.
  - destruct (execute_prepared encrypt_program bf message 50000)
      as (ok & bf' & Hex & Hfail).
    exists ok, bf'. unfold encrypt_message. rewrite Hex.
    split_and!; [done|done|..].
    + intros [->|Hnil]; [done|]. rewrite Hnil. by destruct ok.
    + intros -> Hne. by destruct (get_output_string bf').
  - destruct (execute_prepared decrypt_program bf message 50000)
      as (ok & bf' & Hex & Hfail).
    exists ok, bf'. unfold decrypt_message. rewrite Hex.
    split_and!; [done|done|..].
    + intros [->|Hnil]; [done|]. rewrite Hnil. by destruct ok.
    + intros -> Hne. by destruct (get_output_string bf').
Qed.

(** ** The machine at the start of an execution *)

Lemma bf_command_dispatch fuel client_id prog s :
  handle_command fuel client_id (str "/bf " ++ prog) s =
  match execute (prepare (bf s) (str "Hello!")) prog 5000 with
  | Some (success, bf') =>
    send_to_client_ fuel client_id
      (if success then bf_output_reply (get_output_string bf')
       else bf_error_reply) (set_bf s bf')
  | None => NoFuel
  end.
Proof.
  unfold handle_command.
  rewrite !bool_decide_eq_false_2 by (intros H; discriminate H).
  reflexivity.
Qed.

(** Claim C5. Every execution that [encrypt_message], [decrypt_message] and
    the [/bf] command start runs on the machine [reset] and [load_input]
    leave: a tape of 1000 zeros, the cursor at 0, the input queue holding
    exactly the new input and the output queue empty. Whatever the machine
    held before has no effect on the three operations. *)
Theorem execution_starts_fresh (bf0 : engine) (data : pystr) :
  prepare bf0 data = mk_engine (replicate 1000 0) 0 (reverse data) []
  /\ encrypt_message bf0 data
     = match execute (mk_engine (replicate 1000 0) 0 (reverse data) [])
                     encrypt_program 50000 with
       | Some (true, bf') => Some (or_else (get_output_string bf') data, bf')
       | Some (false, bf') => Some (data, bf')
       | None => None
       end
  /\ decrypt_message bf0 data
     = match execute (mk_engine (replicate 1000 0) 0 (reverse data) [])
                     decrypt_program 50000 with
       | Some (true, bf') => Some (or_else (get_output_string bf') data, bf')
       | Some (false, bf') => Some (data, bf')
       | None => None
       end
  /\ (forall fuel client_id s,
        handle_command fuel client_id (str "/bf " ++ data) (set_bf s bf0)
        = match execute (mk_engine (replicate 1000 0) 0
                                   (reverse (str "Hello!")) [])
                        data 5000 with
          | Some (success, bf') =>
            send_to_client_ fuel client_id
              (if success then bf_output_reply (get_output_string bf')
               else bf_error_reply) (set_bf s bf')
          | None => NoFuel
          end).
Proof.
  split_and!; [reflexivity..|].
  intros fuel client_id s. by rewrite bf_command_dispatch.
Qed.

(** ** The [/bf] command *)

Lemma send_to_client_ok fuel client_id message s r :
  lock_held s = false ->
  dict_get (clients s) client_id = Some r ->
  active (heap s r) = true ->
  send_raises s (socket (heap s r)) = false ->
  send_to_client fuel client_id message s
  = Returned true (set_sent s (sent s ++ [(socket (heap s r), message)])).
Proof.
  intros Hlock Hget Hact Hsend. unfold send_to_client, with_lock.
  rewrite Hlock. simpl. rewrite Hget, Hact. unfold sock_send. simpl.
  rewrite Hsend. destruct s. simpl in *. by subst.
Qed.

Lemma canned_decrypt bf0 :
  exists bf',
    execute (prepare bf0 (str "Hello!")) (str ",[-.,]") 5000 = Some (true, bf')
    /\ get_output_string bf' = str "Gdkkn ".
Proof. vm_compute. by eexists. Qed.

(** Claim C8. With the lock free, the issuing client registered and active
    and its socket accepting the send, [/bf <program>] runs the program on
    the input "Hello!" with a budget of 5000 steps and sends one text, to
    the socket of the issuing client and to no other: the output in the
    reply format when the execution succeeded, the failure notice when it
    did not. For the program [,[-.,]] the reply carries "Gdkkn ". *)
Theorem bf_command_reply (fuel : nat) (s : server) (client_id prog : pystr)
    (r : nat) :
  lock_held s = false ->
  dict_get (clients s) client_id = Some r ->
  active (heap s r) = true ->
  send_raises s (socket (heap s r)) = false ->
  exists success bf',
    execute (prepare (bf s) (str "Hello!")) prog 5000 = Some (success, bf')
    /\ handle_command fuel client_id (str "/bf " ++ prog) s
       = Returned tt
           (set_sent (set_bf s bf')
              (sent s ++
               [(socket (heap s r),
                 if success then bf_output_reply (get_output_string bf')
                 else bf_error_reply)]))
    /\ (prog = str ",[-.,]" ->
        success = true /\
        bf_output_reply (get_output_string bf')
        = [129504] ++ str " BF Output: 'Gdkkn '").
Proof.
  intros Hlock Hget Hact Hsend.
  destruct (execute_prepared prog (bf s) (str "Hello!") 5000)
    as (success & bf' & Hex & _).
  exists success, bf'. split_and!; [done|..].
  - rewrite bf_command_dispatch, Hex. unfold send_to_client_.
    rewrite (send_to_client_ok _ _ _ (set_bf s bf') r);
      [reflexivity|assumption..].
  - intros ->. destruct (canned_decrypt (bf s)) as (bf2 & Hex2 & Hout).
    rewrite Hex in Hex2. clear Hex. injection Hex2 as -> ->.
    split; [reflexivity|]. unfold bf_output_reply. by rewrite Hout.
Qed.

Lemma bf_command_reply_witness :
  exists success bf',
    execute (prepare (bf two_clients) (str "Hello!")) (str ",[-.,]") 5000
    = Some (success, bf')
    /\ handle_command 1 (str "Client_1") (str "/bf " ++ str ",[-.,]")
         two_clients
       = Returned tt
           (set_sent (set_bf two_clients bf')
              (sent two_clients ++
               [(socket (heap two_clients 1%nat),
                 if success then bf_output_reply (get_output_string bf')
                 else bf_error_reply)]))
    /\ (str ",[-.,]" = str ",[-.,]" ->
        success = true /\
        bf_output_reply (get_output_string bf')
        = [129504] ++ str " BF Output: 'Gdkkn '").
Proof.
  apply (bf_command_reply 1 two_clients (str "Client_1") (str ",[-.,]") 1%nat);
    reflexivity.
Defined.

(** ** [disconnect_client] and the lock *)

(** A call that finds the entry and the lock free tears the entry down and
    then blocks: [broadcast_system_message] asks for the lock that the call
    itself holds. Nothing is sent. *)
Lemma disconnect_client_present fuel client_id s r :
  lock_held s = false ->
  dict_get (clients s) client_id = Some r ->
  disconnect_client (S fuel) client_id s
  = Deadlock
      (set_clients
         (sock_close
            (set_heap (set_lock s true)
               (<[r := set_active (heap s r) false]> (heap s)))
            (socket (heap s r)))
         (dict_del (clients s) client_id)).
Proof.
  intros Hlock Hget. simpl. unfold with_lock at 1. rewrite Hlock.
  simpl. rewrite Hget. reflexivity.
Qed.

(** A call made while the lock is held never returns. *)
Lemma disconnect_client_locked fuel client_id s :
  lock_held s = true ->
  disconnect_client fuel client_id s
  = match fuel with O => NoFuel | S _ => Deadlock s end.
Proof.
  intros Hlock. destruct fuel; [done|].
  simpl. unfold with_lock. by rewrite Hlock.
Qed.

(** The fuel of [disconnect_client] is immaterial: the nested call of
    [broadcast_system_message] stops at the lock before it can call back. *)
Lemma disconnect_client_fuel fuel client_id s :
  disconnect_client (S fuel) client_id s = disconnect_client 1 client_id s.
Proof.
  simpl. unfold with_lock at 1 2. destruct (lock_held s); [done|].
  simpl. by destruct (dict_get (clients s) client_id).
Qed.

(** Claim C9 does not hold of the code. With Client_1 and Client_2
    connected, [disconnect_client("Client_1")] marks the entry inactive,
    closes its socket once and removes the entry, and then blocks with the
    lock held; no departure notice is sent, and a second call blocks as
    well instead of returning. *)
Theorem disconnect_client_blocks (fuel : nat) :
  exists s',
    disconnect_client (S fuel) (str "Client_1") two_clients = Deadlock s'
    /\ sent s' = []
    /\ closed s' = [1%nat]
    /\ active (heap s' 1%nat) = false
    /\ clients s' = [(str "Client_2", 2%nat)]
    /\ lock_held s' = true
    /\ (forall fuel',
          disconnect_client (S fuel') (str "Client_1") s' = Deadlock s').
Proof.
  eexists. split.
  - by apply (disconnect_client_present fuel (str "Client_1") two_clients 1).
  - split_and!; try reflexivity.
Qed.

(** * Further properties of the engine *)

(** ** Invariants of the main loop *)

Lemma py_pop_Some {A} (l : list A) x rest :
  py_pop l = Some (x, rest) -> l = rest ++ [x].
Proof.
  unfold py_pop. destruct (last l) as [y|] eqn:Hlast; [|done].
  apply last_Some in Hlast as [l' ->]. rewrite removelast_last.
  by intros [= -> ->].
Qed.

Lemma py_pop_None {A} (l : list A) : py_pop l = None -> l = [].
Proof.
  unfold py_pop. destruct (last l) eqn:Hlast; [done|].
  by apply last_None in Hlast.
Qed.

Lemma py_set_insert {A} (l : list A) i v m :
  py_set l i v = Some m -> exists k, m = <[k := v]> l.
Proof.
  unfold py_set. destruct (py_index l i) as [k|]; [|done].
  intros [= <-]. by exists k.
Qed.

Lemma store_cases e v e' o :
  store e v = (e', o) ->
  e' = e \/ exists k, e' = set_memory e (<[k := v]> (memory e)).
Proof.
  unfold store. destruct (py_set _ _ _) as [m|] eqn:Hset.
  - apply py_set_insert in Hset as [k ->]. intros [= <- _]. eauto.
  - intros [= <- _]. eauto.
Qed.

(** Every instruction has one of the effects of [effect]. *)
Lemma step_effect code e ip e' r :
  step code e ip = (e', r) -> effect e e'.
Proof.
  unfold step.
  destruct (py_get code ip) as [cmd|]; [|intros [= <- _]; constructor].
  destruct (py_pop (input_buffer e)) as [[x rest]|] eqn:Hpop;
    [apply py_pop_Some in Hpop|apply py_pop_None in Hpop].
  all: repeat case_match; intros [= <- _]; subst.
  all: repeat match goal with
         | H : store _ _ = (_, _) |- _ =>
             apply store_cases in H as [->|[k ->]]
         end.
  all: eauto using effect.
  all: by apply (effect_read e rest x k).
Qed.

(** A property that every effect keeps holds at the end of [run]. *)
Lemma run_invariant (P : engine -> Prop) code max_steps :
  (forall e e', P e -> effect e e' -> P e') ->
  forall fuel e ip steps e' r,
    P e -> run fuel code max_steps e ip steps = (e', r) -> P e'.
Proof.
  intros HP. induction fuel as [|fuel IH]; intros e ip steps e' r He; simpl.
  - destruct ((ip <? len code) && (steps <? max_steps));
      by intros [= <- _].
  - destruct ((ip <? len code) && (steps <? max_steps));
      [|by intros [= <- _]].
    destruct (step code e ip) as [e1 r1] eqn:Hstep.
    apply step_effect in Hstep. pose proof (HP _ _ He Hstep).
    destruct r1 as [ip1| |]; [by apply IH|by intros [= <- _]..].
Qed.

(** And at the end of [execute], when it holds of the machine with the
    output queue emptied. *)
Lemma execute_invariant (P : engine -> Prop) e code max_steps b e' :
  (forall e e', P e -> effect e e' -> P e') ->
  P (set_output e []) ->
  execute e code max_steps = Some (b, e') -> P e'.
Proof.
  intros HP He. unfold execute.
  destruct (run _ code max_steps _ 0 0) as [e1 r] eqn:Hrun.
  apply (run_invariant P code max_steps HP) in Hrun; [|done].
  destruct r as [[ip steps]| |]; by intros [= _ <-].
Qed.

Lemma py_get_elem_of {A} (l : list A) i v : py_get l i = Some v -> v ∈ l.
Proof.
  unfold py_get. destruct (py_index l i); [|done].
  intros H. by eapply list_elem_of_lookup_2.
Qed.

(** ** The tape keeps its length and the cursor stays on it *)

Lemma effect_length e e' :
  effect e e' -> length (memory e') = length (memory e).
Proof. destruct 1; simpl; by rewrite ?length_insert. Qed.

(** On a machine whose cursor is on the tape, [execute] returns with the
    tape as long as it was and the cursor still on it, whatever the program
    and the budget. *)
Theorem execute_keeps_tape (e : engine) (code : pystr) (max_steps : Z) :
  wf e ->
  exists b e', execute e code max_steps = Some (b, e')
    /\ length (memory e') = length (memory e)
    /\ 0 <= pointer e' < len (memory e').
Proof.
  intros Hwf.
  destruct (execute_spec e code max_steps Hwf) as (b & e' & Hex & Hwf' & _).
  exists b, e'. split; [done|]. split; [|done].
  apply (execute_invariant
           (fun e1 => length (memory e1) = length (memory e)) _ _ _ _ _
           (fun e1 e2 H1 H2 => eq_trans (effect_length e1 e2 H2) H1)
           eq_refl Hex).
Qed.

Lemma execute_keeps_tape_witness :
  wf (load_input init (str "ab")) /\
  exists b e', execute (load_input init (str "ab")) (str ",>,<<<.") 4
               = Some (b, e')
    /\ length (memory e') = length (memory (load_input init (str "ab")))
    /\ 0 <= pointer e' < len (memory e').
Proof.
  assert (H : wf (load_input init (str "ab")))
    by (vm_compute; split; [discriminate|reflexivity]).
  split; [exact H|].
  apply (execute_keeps_tape (load_input init (str "ab")) (str ",>,<<<.") 4 H).
Defined.

(** ** The queues *)

Lemma effect_output e e' :
  effect e e' ->
  (length (output_buffer e') <= S (length (output_buffer e)))%nat.
Proof. destruct 1; simpl; rewrite ?length_app; simpl; lia. Qed.

Lemma run_output_bound code max_steps fuel : forall e ip steps e' r,
  run fuel code max_steps e ip steps = (e', r) ->
  (length (output_buffer e')
   <= length (output_buffer e) + Z.to_nat (max_steps - steps))%nat.
Proof.
  induction fuel as [|fuel IH]; intros e ip steps e' r; simpl.
  - destruct ((ip <? len code) && (steps <? max_steps));
      intros [= <- _]; lia.
  - destruct (ip <? len code); simpl; [|intros [= <- _]; lia].
    destruct (Z.ltb_spec steps max_steps); [|intros [= <- _]; lia].
    destruct (step code e ip) as [e1 r1] eqn:Hstep.
    apply step_effect, effect_output in Hstep.
    destruct r1 as [ip1| |]; [|intros [= <- _]; lia..].
    intros Hrun%IH. lia.
Qed.

(** An execution writes at most [max_steps] values: the output queue, which
    [execute] empties first, cannot end longer than the budget. *)
Theorem execute_output_bound (e : engine) (code : pystr) (max_steps : Z)
    (b : bool) (e' : engine) :
  execute e code max_steps = Some (b, e') ->
  len (output_buffer e') <= Z.max 0 max_steps.
Proof.
  unfold execute.
  destruct (run _ code max_steps _ 0 0) as [e1 r] eqn:Hrun.
  apply run_output_bound in Hrun. simpl in Hrun.
  destruct r as [[ip steps]| |]; intros [= _ <-]; unfold len; lia.
Qed.

Lemma execute_output_bound_witness :
  execute (load_input (mk_engine [0] 0 [] []) (str "abc")) (str ",[.,]") 7
  = Some (false, mk_engine [98] 0 [99] [97; 98])
  /\ len [97; 98] <= Z.max 0 7.
Proof.
  assert (H : execute (load_input (mk_engine [0] 0 [] []) (str "abc"))
                      (str ",[.,]") 7
              = Some (false, mk_engine [98] 0 [99] [97; 98]))
    by (vm_compute; reflexivity).
  split; [exact H|]. apply (execute_output_bound _ _ _ _ _ H).
Defined.




(** ** Cells and outputs stay bytes *)

Lemma effect_bytes e e' :
  Forall (fun v => 0 <= v <= 255) (memory e)
  /\ Forall (fun v => 0 <= v <= 255) (input_buffer e)
  /\ Forall (fun v => 0 <= v <= 255) (output_buffer e) ->
  effect e e' ->
  Forall (fun v => 0 <= v <= 255) (memory e')
  /\ Forall (fun v => 0 <= v <= 255) (input_buffer e')
  /\ Forall (fun v => 0 <= v <= 255) (output_buffer e').
Proof.
  intros (Hm & Hi & Ho).
  destruct 1 as [|p _|k v0 v _ Hv|v Hv|rest x k Hin|rest x Hin|k _]; simpl.
  - done.
  - done.
  - split_and!; [|done..]. apply Forall_insert; [done|].
    pose proof (Z.mod_pos_bound (v0 + 1) 256).
    pose proof (Z.mod_pos_bound (v0 - 1) 256). lia.
  - split_and!; [done..|]. apply Forall_app. split; [done|].
    apply py_get_elem_of in Hv. rewrite Forall_forall in Hm.
    apply Forall_singleton. by apply Hm.
  - rewrite Hin in Hi. apply Forall_app in Hi as [Hrest Hx].
    apply Forall_inv in Hx.
    split_and!; [|done..]. by apply Forall_insert.
  - rewrite Hin in Hi. by apply Forall_app in Hi as [Hrest Hx].
  - split_and!; [|done..]. by apply Forall_insert.
Qed.

(** When the tape and the input hold values in 0..255 only, so do the tape
    and the output after [execute], for every program and budget. *)
Theorem execute_bytes (e : engine) (code : pystr) (max_steps : Z)
    (b : bool) (e' : engine) :
  Forall (fun v => 0 <= v <= 255) (memory e) ->
  Forall (fun v => 0 <= v <= 255) (input_buffer e) ->
  execute e code max_steps = Some (b, e') ->
  Forall (fun v => 0 <= v <= 255) (memory e')
  /\ Forall (fun v => 0 <= v <= 255) (output_buffer e').
Proof.
  intros Hm Hi Hex.
  apply (execute_invariant _ _ _ _ _ _ effect_bytes) in Hex
    as (? & _ & ?); [done|].
  simpl. split_and!; [done|done|constructor].
Qed.

Lemma execute_bytes_witness :
  Forall (fun v => 0 <= v <= 255) [0; 0]
  /\ Forall (fun v => 0 <= v <= 255) [255]
  /\ Forall (fun v => 0 <= v <= 255) [255; 0]
  /\ Forall (fun v => 0 <= v <= 255) [0; 255].
Proof.
  assert (Hm : Forall (fun v => 0 <= v <= 255) [0; 0])
    by (repeat constructor; done).
  assert (Hi : Forall (fun v => 0 <= v <= 255) [255])
    by (repeat constructor; done).
  split_and!; [exact Hm|exact Hi|..];
    apply (execute_bytes (mk_engine [0; 0] 0 [255] []) (str ",+.-.") 9
             true (mk_engine [255; 0] 0 [] [0; 255]) Hm Hi);
    vm_compute; reflexivity.
Defined.

(** ** The budget *)

(** A larger budget does not change a successful execution, and a smaller
    one does not rescue a failed one. *)
Theorem execute_budget_monotone (e : engine) (code : pystr)
    (max_steps max_steps' : Z) :
  max_steps <= max_steps' ->
  (forall e', execute e code max_steps = Some (true, e') ->
              execute e code max_steps' = Some (true, e'))
  /\ ((exists e', execute e code max_steps' = Some (false, e')) ->
      exists e', execute e code max_steps = Some (false, e')).
Proof.
  intros Hle.
  assert (Hup : forall e', execute e code max_steps = Some (true, e') ->
                           execute e code max_steps' = Some (true, e')).
  { intros e'. unfold execute at 1.
    destruct (run _ code max_steps _ 0 0) as [e1 [[ip steps]| |]] eqn:Hrun;
      [|done..].
    intros [= Hlt%Z.ltb_lt ->].
    apply run_exec_n in Hrun as (Hex & Hge & Hend & _).
    rewrite Z.sub_0_r in Hex.
    destruct (execute_of_exec_n e code max_steps' _ _ _ Hex)
      as (e2 & -> & He2); [lia|].
    rewrite He2 by lia. by rewrite bool_decide_eq_true_2 by lia. }
  split; [done|]. intros [e' Hfail].
  destruct (run_no_fuel code max_steps (Z.to_nat max_steps)
              (set_output e []) 0 0) as (e1 & Hrun); [lia|lia|].
  assert (exists b, execute e code max_steps = Some (b, e1)) as [[|] Hex].
  { unfold execute.
    destruct Hrun as [->|([ip steps] & ->)]; by eauto. }
  - apply Hup in Hex. congruence.
  - by eauto.
Qed.

Lemma execute_budget_monotone_witness :
  767 <= 50000 /\ execute init (str "+[+]") 50000 = Some (true, init).
Proof.
  assert (H : 767 <= 50000) by lia.
  split; [exact H|].
  apply (execute_budget_monotone init (str "+[+]") 767 50000 H).
  vm_compute. reflexivity.
Defined.

(** ** Matching brackets *)

Lemma count_app c (l1 l2 : pystr) :
  count c (l1 ++ l2) = count c l1 + count c l2.
Proof. induction l1 as [|x l1 IH]; simpl; [done|]. rewrite IH. lia. Qed.

Lemma scan_forward_done fuel code ip : scan_forward fuel code ip 0 = Val ip.
Proof. destruct fuel; simpl; by rewrite andb_false_r. Qed.

Lemma scan_backward_done fuel code ip : scan_backward fuel code ip 0 = Val ip.
Proof. destruct fuel; simpl; by rewrite andb_false_r. Qed.

(** The forward scan over instructions that keep the depth positive and
    end one above 0, followed by a ']': it stops right behind that ']'. *)
Lemma scan_forward_close code : forall (bd : pystr) fuel ip bc rest,
  0 <= ip -> drop (Z.to_nat ip) code = bd ++ 93 :: rest ->
  (length bd < fuel)%nat ->
  (forall k : nat, count 93 (take k bd) < bc + count 91 (take k bd)) ->
  bc + count 91 bd - count 93 bd = 1 ->
  scan_forward fuel code ip bc = Val (ip + len bd + 1).
Proof.
  induction bd as [|c bd IH]; intros fuel ip bc rest Hip Hdrop Hfuel Hpre Hend.
  - simpl in Hend. assert (bc = 1) as -> by lia.
    assert (Hc : code !! Z.to_nat ip = Some 93).
    { rewrite <- (Nat.add_0_r (Z.to_nat ip)), <- lookup_drop.
      by rewrite Hdrop. }
    pose proof (lookup_lt_Some _ _ _ Hc).
    destruct fuel as [|fuel]; [simpl in Hfuel; lia|]. simpl.
    destruct (Z.ltb_spec ip (len code)); [|unfold len in *; lia]. simpl.
    rewrite (py_get_lookup _ _ _ Hip Hc). simpl.
    rewrite scan_forward_done. f_equal. unfold len. simpl. lia.
  - assert (Hc : code !! Z.to_nat ip = Some c).
    { rewrite <- (Nat.add_0_r (Z.to_nat ip)), <- lookup_drop.
      by rewrite Hdrop. }
    pose proof (lookup_lt_Some _ _ _ Hc).
    pose proof (Hpre O) as H0. simpl in H0.
    destruct fuel as [|fuel]; [simpl in Hfuel; lia|]. simpl.
    destruct (Z.ltb_spec ip (len code)); [|unfold len in *; lia]. simpl.
    destruct (Z.ltb_spec 0 bc); [|lia].
    rewrite (py_get_lookup _ _ _ Hip Hc).
    rewrite (drop_S _ _ _ Hc) in Hdrop. simpl in Hdrop.
    injection Hdrop as Hdrop.
    change (ord "[") with 91. change (ord "]") with 93.
    simpl in Hend.
    rewrite (IH fuel (ip + 1) _ rest).
    + f_equal. unfold len. simpl. lia.
    + lia.
    + by replace (Z.to_nat (ip + 1)) with (S (Z.to_nat ip)) by lia.
    + simpl in Hfuel. lia.
    + intros k. specialize (Hpre (S k)). simpl in Hpre.
      destruct (Z.eqb_spec c 91), (Z.eqb_spec c 93); lia.
    + destruct (Z.eqb_spec c 91), (Z.eqb_spec c 93); lia.
Qed.

(** The backward scan over instructions that, read from the right, keep
    the depth positive and end one above 0, preceded by a '[': it stops
    right before that '['. *)
Lemma scan_backward_open code : forall (bd : pystr) fuel ip bc pre,
  ip < len code ->
  take (Z.to_nat (ip + 1)) code = pre ++ 91 :: bd ->
  (length bd < fuel)%nat ->
  (forall k : nat, count 91 (drop k bd) < bc + count 93 (drop k bd)) ->
  bc + count 93 bd - count 91 bd = 1 ->
  scan_backward fuel code ip bc = Val (ip - len bd - 1).
Proof.
  induction bd as [|c bd IH] using rev_ind;
    intros fuel ip bc pre Hip Htake Hfuel Hsuf Hend.
  - simpl in Hend. assert (bc = 1) as -> by lia.
    assert (Hlen : Z.to_nat (ip + 1) = S (length pre)).
    { apply (f_equal length) in Htake.
      rewrite length_take, length_app in Htake. simpl in Htake.
      unfold len in Hip. lia. }
    assert (Hc : code !! Z.to_nat ip = Some 91).
    { rewrite <- (lookup_take_lt _ (Z.to_nat (ip + 1))) by lia.
      rewrite Htake. replace (Z.to_nat ip) with (length pre) by lia.
      by rewrite list_lookup_middle. }
    destruct fuel as [|fuel]; [simpl in Hfuel; lia|]. simpl.
    destruct (Z.leb_spec 0 ip); [|lia]. simpl.
    assert (Hip0 : 0 <= ip) by lia.
    rewrite (py_get_lookup _ _ _ Hip0 Hc). simpl.
    rewrite scan_backward_done. f_equal. unfold len. simpl. lia.
  - rewrite length_app in Hfuel. simpl in Hfuel.
    assert (Hlen : Z.to_nat (ip + 1) = S (length pre + S (length bd))).
    { apply (f_equal length) in Htake.
      rewrite length_take, !length_app in Htake. simpl in Htake.
      rewrite length_app in Htake. simpl in Htake.
      unfold len in Hip. lia. }
    assert (Hc : code !! Z.to_nat ip = Some c).
    { rewrite <- (lookup_take_lt _ (Z.to_nat (ip + 1))) by lia.
      rewrite Htake.
      replace (pre ++ 91 :: bd ++ [c]) with ((pre ++ 91 :: bd) ++ [c])
        by by rewrite <- app_assoc.
      replace (Z.to_nat ip) with (length (pre ++ 91 :: bd))
        by (rewrite length_app; simpl; lia).
      by rewrite list_lookup_middle. }
    assert (Htake' : take (Z.to_nat (ip - 1 + 1)) code = pre ++ 91 :: bd).
    { replace (Z.to_nat (ip + 1)) with (S (Z.to_nat ip)) in Htake by lia.
      rewrite (take_S_r _ _ _ Hc) in Htake.
      replace (pre ++ 91 :: bd ++ [c]) with ((pre ++ 91 :: bd) ++ [c])
        in Htake by by rewrite <- app_assoc.
      apply app_inj_tail in Htake as [Htake _].
      by replace (ip - 1 + 1) with ip by lia. }
    pose proof (Hsuf (length (bd ++ [c]))) as H0.
    rewrite drop_all in H0. simpl in H0.
    pose proof (Hsuf (length bd)) as H1.
    rewrite drop_app_length in H1. simpl in H1.
    rewrite !count_app in Hend. simpl in Hend.
    destruct fuel as [|fuel]; [lia|]. simpl.
    destruct (Z.leb_spec 0 ip); [|lia]. simpl.
    destruct (Z.ltb_spec 0 bc); [|lia].
    assert (Hip0 : 0 <= ip) by lia.
    rewrite (py_get_lookup _ _ _ Hip0 Hc).
    change (ord "[") with 91. change (ord "]") with 93.
    rewrite (IH fuel (ip - 1) _ pre).
    + f_equal. unfold len. rewrite length_app. simpl. lia.
    + lia.
    + done.
    + lia.
    + intros k. destruct (decide (k <= length bd)%nat) as [Hk|Hk].
      * specialize (Hsuf k). rewrite drop_app_le in Hsuf by done.
        rewrite !count_app in Hsuf. simpl in Hsuf.
        destruct (Z.eqb_spec c 91), (Z.eqb_spec c 93); lia.
      * rewrite drop_ge by lia. simpl.
        destruct (Z.eqb_spec c 91), (Z.eqb_spec c 93); lia.
    + destruct (Z.eqb_spec c 91), (Z.eqb_spec c 93); lia.
Qed.

Lemma count_take_drop c (l : pystr) (k : nat) :
  count c l = count c (take k l) + count c (drop k l).
Proof. by rewrite <- count_app, take_drop. Qed.

(** For a matching pair, '[' on a zero cell leaves the cursor on its ']',
    so that the next instruction is the one behind the ']'; and ']' on a
    non-zero cell leaves the cursor before its '[', so that the next
    instruction is the '[' itself. Neither changes the machine. *)
Theorem matching_brackets_jump (code : pystr) (i j : Z) :
  matching code i j ->
  (forall e, cell e = Some 0 -> step code e i = (e, Val j))
  /\ (forall e v, cell e = Some v -> v <> 0 ->
        step code e j = (e, Val (i - 1))).
Proof.
  intros (Hij & Hi & Hj & Hpre & Hbal).
  destruct (py_get_Some_range _ _ _ Hi) as [Hilen Hci]; [lia|].
  destruct (py_get_Some_range _ _ _ Hj) as [Hjlen Hcj]; [lia|].
  change (ord "[") with 91 in *. change (ord "]") with 93 in *.
  set (bd := between code i j) in *.
  assert (Hbd : len bd = j - i - 1).
  { unfold bd, between, len in *. rewrite length_take, length_drop. lia. }
  assert (Hdrop : drop (Z.to_nat (i + 1)) code
                  = bd ++ 93 :: drop (S (Z.to_nat j)) code).
  { rewrite <- (take_drop (Z.to_nat (j - i - 1))
                          (drop (Z.to_nat (i + 1)) code)).
    fold (between code i j). fold bd. f_equal.
    rewrite drop_drop.
    replace (Z.to_nat (i + 1) + Z.to_nat (j - i - 1))%nat
      with (Z.to_nat j) by lia.
    by apply drop_S. }
  assert (Htake : take (Z.to_nat (j - 1 + 1)) code
                  = take (Z.to_nat i) code ++ 91 :: bd).
  { replace (Z.to_nat (j - 1 + 1))
      with (Z.to_nat i + S (Z.to_nat (j - i - 1)))%nat by lia.
    rewrite <- take_take_drop. f_equal.
    rewrite (drop_S _ _ _ Hci). simpl. f_equal.
    by replace (S (Z.to_nat i)) with (Z.to_nat (i + 1)) by lia. }
  split.
  - intros e He. replace j with (j + 1 - 1) at 1 by lia.
    apply step_open_zero; [done|done|].
    assert (Hi1 : 0 <= i + 1) by lia.
    rewrite (scan_forward_close code bd _ _ 1 _ Hi1 Hdrop).
    + f_equal. lia.
    + unfold len in *. lia.
    + intros k. specialize (Hpre k). lia.
    + lia.
  - intros e v He Hv. apply (step_close_nonzero code e j v); [done..|].
    assert (Hj1 : j - 1 < len code) by lia.
    rewrite (scan_backward_open code bd _ _ 1 _ Hj1 Htake).
    + f_equal. lia.
    + unfold len in *. lia.
    + intros k. specialize (Hpre k).
      pose proof (count_take_drop 91 bd k).
      pose proof (count_take_drop 93 bd k). lia.
    + lia.
Qed.

(** The outer loop of [+[>[-]<]]. *)
Lemma matching_brackets_jump_witness :
  matching (str "+[>[-]<]") 1 7
  /\ step (str "+[>[-]<]") init 1 = (init, Val 7)
  /\ step (str "+[>[-]<]") (mk_engine [3; 0] 0 [] []) 7
     = (mk_engine [3; 0] 0 [] [], Val (1 - 1)).
Proof.
  assert (H : matching (str "+[>[-]<]") 1 7).
  { split_and!; [lia|lia|reflexivity|reflexivity| |reflexivity].
    intros k. do 6 (destruct k as [|k]; [vm_compute; discriminate|]).
    vm_compute. discriminate. }
  destruct (matching_brackets_jump (str "+[>[-]<]") 1 7 H) as [H1 H2].
  split_and!; [exact H|apply H1; reflexivity|].
  apply (H2 _ 3); [reflexivity|discriminate].
Defined.

(** * Further properties of the protocol *)

(** ** What the two programs compute on any text *)

Lemma before_nul_split (x : pystr) :
  exists rest, x = before_nul x ++ rest
    /\ Forall (fun a => a <> 0) (before_nul x)
    /\ (rest = [] \/ exists post, rest = 0 :: post).
Proof.
  induction x as [|c x (rest & Hx & Hall & Hrest)]; simpl.
  - exists []. by split_and!; [|constructor|left].
  - destruct (Z.eqb_spec c 0) as [->|Hc].
    + exists (0 :: x). split_and!; [done|constructor|by eauto].
    + exists rest. split_and!; [simpl; congruence|by constructor|done].
Qed.

Lemma before_nul_id (x : pystr) :
  Forall (fun a => a <> 0) x -> before_nul x = x.
Proof.
  induction 1 as [|c x Hc _ IH]; simpl; [done|].
  destruct (Z.eqb_spec c 0); [done|]. by rewrite IH.
Qed.

Section CaesarAnyText.
Variable op : Z.
Hypothesis Hop : op = 43 \/ op = 45.

Lemma caesar_scan_skip :
  scan_forward (length (caesar op)) (caesar op) (1 + 1) 1 = Val 6.
Proof. destruct Hop as [H|H]; rewrite H; reflexivity. Qed.

(** The loop of [caesar op] as in [caesar_loop], with more of the input
    below the characters [x]: nothing, or a character 0 and anything below
    it. The loop ends at the end of [x] all the same. *)
Lemma caesar_loop_upto : forall (x : pystr) e c below,
  wf e -> cell e = Some c -> c <> 0 ->
  input_buffer e = below ++ reverse x -> Forall (fun a => a <> 0) x ->
  below = [] \/ (exists below', below = below' ++ [0]) ->
  exists e', exec_n (5 * S (length x)) (caesar op) e 1 = Some (e', 6)
    /\ output_buffer e' = output_buffer e ++ map (shift op) (c :: x).
Proof.
  induction x as [|a x IH]; intros e c below Hwf Hc Hnz Hin Hall Hbelow.
  - destruct (caesar_round op Hop e c) as (e3 & He3 & Hwf3 & _ & Hin3 & Hout3);
      [done..|].
    replace (5 * S (length (@nil Z)))%nat with (3 + 2)%nat by done.
    rewrite exec_n_add, He3. rewrite app_nil_r in Hin.
    destruct Hbelow as [->|[below' ->]].
    + erewrite exec_n_S;
        [|rewrite caesar_len; lia
         |by apply step_comma_eof; [| |rewrite Hin3, Hin]].
      erewrite exec_n_S;
        [|rewrite caesar_len; lia
         |by apply step_close_zero; [|apply cell_poke]].
      eexists. split; [reflexivity|]. simpl. by rewrite Hout3.
    + erewrite exec_n_S;
        [|rewrite caesar_len; lia
         |by apply step_comma_pop; [| |rewrite Hin3, Hin]].
      erewrite exec_n_S;
        [|rewrite caesar_len; lia
         |by apply step_close_zero; [|apply cell_poke, wf_set_input]].
      eexists. split; [reflexivity|]. simpl. by rewrite Hout3.
  - apply Forall_cons in Hall as [Ha Hall].
    destruct (caesar_round op Hop e c) as (e3 & He3 & Hwf3 & _ & Hin3 & Hout3);
      [done..|].
    replace (5 * S (length (a :: x)))%nat
      with (3 + (2 + 5 * S (length x)))%nat by (simpl; lia).
    rewrite exec_n_add, He3.
    rewrite reverse_cons, app_assoc in Hin.
    assert (Hwf4 : wf (poke (set_input e3 (below ++ reverse x)) a))
      by by apply wf_poke.
    assert (Hc4 : cell (poke (set_input e3 (below ++ reverse x)) a) = Some a)
      by by apply cell_poke.
    change (2 + 5 * S (length x))%nat with (S (S (5 * S (length x))))%nat.
    erewrite exec_n_S;
      [|rewrite caesar_len; lia
       |by apply step_comma_pop; [| |rewrite Hin3, Hin]].
    erewrite exec_n_S;
      [|rewrite caesar_len; lia
       |by apply (step_close_nonzero _ _ _ a 0);
          [| | |apply caesar_scan_back]].
    destruct (IH (poke (set_input e3 (below ++ reverse x)) a) a below)
      as (e' & He' & Hout'); [done..|].
    exists e'. split; [done|].
    rewrite Hout'. simpl. rewrite Hout3. by rewrite <- app_assoc.
Qed.

(** The whole program on a freshly loaded machine, for any text: only the
    part before the first 0 is read and shifted. *)
Lemma caesar_exec_any bf (x : pystr) :
  exists e',
    exec_n (match before_nul x with
            | [] => 2
            | _ => 1 + 5 * length (before_nul x)
            end)
           (caesar op) (set_output (prepare bf x) []) 0 = Some (e', 6)
    /\ output_buffer e' = map (shift op) (before_nul x).
Proof.
  destruct (before_nul_split x) as (rest & Hx & Hall & Hrest).
  set (e0 := set_output (prepare bf x) []).
  assert (Hwf0 : wf e0) by apply wf_reset.
  assert (Hbelow : reverse rest = [] \/ exists b', reverse rest = b' ++ [0]).
  { destruct Hrest as [->|[post ->]]; [by left|right].
    exists (reverse post). by rewrite reverse_cons. }
  assert (Hin0 : input_buffer e0 = reverse rest ++ reverse (before_nul x)).
  { simpl. rewrite Hx at 1. by rewrite reverse_app. }
  destruct (before_nul x) as [|a pre] eqn:Hpre.
  - rewrite app_nil_r in Hin0. destruct Hbelow as [Hb|[b' Hb]].
    + erewrite exec_n_S;
        [|rewrite caesar_len; lia
         |by apply step_comma_eof; [| |rewrite Hin0]].
      erewrite exec_n_S;
        [|rewrite caesar_len; lia
         |by eapply step_open_zero;
            [|apply cell_poke|apply caesar_scan_skip]].
      eexists. by split.
    + erewrite exec_n_S;
        [|rewrite caesar_len; lia
         |by apply step_comma_pop; [| |rewrite Hin0]].
      erewrite exec_n_S;
        [|rewrite caesar_len; lia
         |by eapply step_open_zero;
            [|apply cell_poke, wf_set_input|apply caesar_scan_skip]].
      eexists. by split.
  - apply Forall_cons in Hall as [Ha Hall].
    rewrite reverse_cons, app_assoc in Hin0.
    erewrite exec_n_S;
      [|rewrite caesar_len; lia
       |by apply step_comma_pop].
    destruct (caesar_loop_upto pre
                (poke (set_input e0 (reverse rest ++ reverse pre)) a) a
                (reverse rest))
      as (e' & He' & Hout');
      [by apply wf_poke|by apply cell_poke|done..|].
    replace (5 * length (a :: pre))%nat with (5 * S (length pre))%nat by done.
    exists e'. split; [done|]. by rewrite Hout'.
Qed.

Lemma caesar_execute_any bf (x : pystr) :
  exists e', execute (prepare bf x) (caesar op) 50000
             = Some (bool_decide (len (before_nul x) < 10000), e')
    /\ (len (before_nul x) < 10000 ->
        output_buffer e' = map (shift op) (before_nul x)).
Proof.
  destruct (caesar_exec_any bf x) as (e1 & He1 & Hout).
  destruct (execute_of_exec_n _ _ 50000 _ _ _ He1) as (e' & He' & Heq);
    [rewrite caesar_len; lia|].
  exists e'. rewrite He'. split.
  - do 2 f_equal. apply bool_decide_ext. unfold len.
    destruct (before_nul x); simpl length; lia.
  - intros Hlen. rewrite Heq; [done|]. unfold len in Hlen.
    destruct (before_nul x); simpl length in *; lia.
Qed.
End CaesarAnyText.

(** [encrypt_message] on any text: the part before the first character 0
    is shifted up by one modulo 256 and the values above 127 are dropped;
    the text itself comes back when nothing is left, and when that part has
    10000 characters or more, for which the budget of 50000 steps does not
    suffice. *)
Theorem encrypt_message_any (bf : engine) (x : pystr) :
  exists bf',
    encrypt_message bf x =
    Some (if bool_decide (len (before_nul x) < 10000)
          then or_else (filter (fun b => 0 <= b <= 127)
                          (map (fun c => (c + 1) mod 256) (before_nul x))) x
          else x, bf').
Proof.
  destruct (caesar_execute_any 43 (or_introl eq_refl) bf x)
    as (e' & Hex & Hout).
  exists e'. unfold encrypt_message.
  rewrite encrypt_program_caesar, Hex.
  case_bool_decide as Hlen; [|done].
  unfold get_output_string. by rewrite Hout.
Qed.

(** [decrypt_message] on any text: the same with the shift down by one. *)
Theorem decrypt_message_any (bf : engine) (x : pystr) :
  exists bf',
    decrypt_message bf x =
    Some (if bool_decide (len (before_nul x) < 10000)
          then or_else (filter (fun b => 0 <= b <= 127)
                          (map (fun c => (c - 1) mod 256) (before_nul x))) x
          else x, bf').
Proof.
  destruct (caesar_execute_any 45 (or_intror eq_refl) bf x)
    as (e' & Hex & Hout).
  exists e'. unfold decrypt_message.
  rewrite decrypt_program_caesar, Hex.
  case_bool_decide as Hlen; [|done].
  unfold get_output_string. by rewrite Hout.
Qed.

(** ** Valid payloads on the wire *)

Lemma map_succ_ne (x : pystr) : x <> [] -> map (fun c => c + 1) x <> x.
Proof. destruct x as [|c x]; [done|]. simpl. intros _ [= H _]. lia. Qed.

(** A text that [validate_message] accepts is really transformed by
    [encrypt_message], every code point going up by one, and
    [decrypt_message] gives it back; neither falls back to its input. *)
Theorem valid_payload_roundtrip (bf : engine) (x : pystr) :
  validate_message x = true ->
  exists bf1 bf2,
    encrypt_message bf x = Some (map (fun c => c + 1) x, bf1)
    /\ map (fun c => c + 1) x <> x
    /\ decrypt_message bf1 (map (fun c => c + 1) x) = Some (x, bf2).
Proof.
  unfold validate_message. case_bool_decide as Hnil; [done|]. simpl.
  destruct (Z.ltb_spec 1000 (len x)) as [|Hlen]; [done|].
  intros Hx%all_printable_Forall.
  assert (Hnz : Forall (fun a => a <> 0) x)
    by (eapply Forall_impl; [exact Hx|simpl; lia]).
  assert (Hup : map (shift 43) x = map (fun c => c + 1) x).
  { apply Forall_fmap_ext_1. eapply Forall_impl; [exact Hx|].
    intros c Hc. simpl in Hc. apply shift_up. lia. }
  assert (Hup' : Forall (fun c => 33 <= c <= 127) (map (fun c => c + 1) x)).
  { rewrite Forall_fmap. eapply Forall_impl; [exact Hx|]. simpl. lia. }
  destruct (caesar_execute 43 (or_introl eq_refl) bf x Hnz)
    as (e1 & He1 & Hout1).
  destruct (caesar_execute 45 (or_intror eq_refl) e1 (map (fun c => c + 1) x))
    as (e2 & He2 & Hout2).
  { eapply Forall_impl; [exact Hup'|]. simpl. lia. }
  assert (Hlen' : len (map (fun c => c + 1) x) < 10000)
    by (unfold len in *; rewrite length_map; lia).
  exists e1, e2. split_and!.
  - unfold encrypt_message. rewrite encrypt_program_caesar, He1.
    rewrite bool_decide_eq_true_2 by lia.
    unfold get_output_string. rewrite Hout1 by lia.
    rewrite Hup, filter_ascii_all, or_else_map; [done|].
    eapply Forall_impl; [exact Hup'|]. simpl. lia.
  - by apply map_succ_ne.
  - unfold decrypt_message. rewrite decrypt_program_caesar, He2.
    rewrite bool_decide_eq_true_2 by done.
    unfold get_output_string. rewrite Hout2 by done.
    assert (Hback : map (shift 45) (map (fun c => c + 1) x) = x).
    { rewrite <- list_fmap_compose. rewrite <- (list_fmap_id x) at 2.
      apply Forall_fmap_ext_1. eapply Forall_impl; [exact Hx|]. simpl.
      intros c Hc. simpl in Hc. apply shift_down. lia. }
    rewrite Hback, filter_ascii_all, or_else_unmap; [done|].
    eapply Forall_impl; [exact Hx|]. simpl. lia.
Qed.

Lemma valid_payload_roundtrip_witness :
  validate_message (str "hi") = true /\
  exists bf1 bf2,
    encrypt_message init (str "hi")
    = Some (map (fun c => c + 1) (str "hi"), bf1)
    /\ map (fun c => c + 1) (str "hi") <> str "hi"
    /\ decrypt_message bf1 (map (fun c => c + 1) (str "hi"))
       = Some (str "hi", bf2).
Proof.
  assert (H : validate_message (str "hi") = true) by reflexivity.
  split; [exact H|]. apply (valid_payload_roundtrip init (str "hi") H).
Defined.

(** * Further properties of the server *)

(** ** Sending *)

Lemma with_lock_free {A} (body : server -> result A) s :
  lock_held s = false ->
  with_lock body s =
  match body (set_lock s true) with
  | Returned a s' => Returned a (set_lock s' false)
  | Deadlock s' => Deadlock s'
  | NoFuel => NoFuel
  end.
Proof. intros H. unfold with_lock. by rewrite H. Qed.

Lemma set_lock_same s : set_lock s (lock_held s) = s.
Proof. by destruct s. Qed.

Lemma set_sent_nil s : set_sent s (sent s ++ []) = s.
Proof. destruct s. unfold set_sent. simpl. by rewrite app_nil_r. Qed.

(** A call of [disconnect_client] made with the lock held blocks at once. *)
Lemma disconnect_client_held fuel client_id s :
  lock_held s = true ->
  disconnect_client (S fuel) client_id s = Deadlock s.
Proof. intros H. simpl. unfold with_lock. by rewrite H. Qed.

(** The sends of a system broadcast when none of them raises. *)
Lemma fan_out_ok message exclude items : forall s l,
  Forall (fun sock => send_raises s sock = false)
         (recipients exclude items (heap s)) ->
  fan_out message exclude items s l =
  (set_sent s (sent s ++ map (fun sock => (sock, message))
                             (recipients exclude items (heap s))), l).
Proof.
  induction items as [|[client_id r] items IH]; intros s l Hok; simpl.
  - by rewrite set_sent_nil.
  - simpl in Hok.
    destruct (bool_decide (Some client_id <> exclude) && active (heap s r));
      [|by apply IH].
    apply Forall_cons in Hok as [Hr Hok].
    unfold sock_send. rewrite Hr.
    rewrite IH by done. simpl. unfold set_sent. simpl.
    by rewrite <- app_assoc.
Qed.

(** What the first loop of a system broadcast leaves alone, and when it
    collects a client. *)
Lemma fan_out_frame message exclude items : forall s l s1 l1,
  fan_out message exclude items s l = (s1, l1) ->
  clients s1 = clients s /\ heap s1 = heap s /\ lock_held s1 = lock_held s
  /\ (l <> [] \/ Exists (fun sock => send_raises s sock = true)
                        (recipients exclude items (heap s)) -> l1 <> []).
Proof.
  induction items as [|[client_id r] items IH]; intros s l s1 l1; simpl.
  - intros [= <- <-]. split_and!; [done..|].
    intros [?|Hex%Exists_nil]; done.
  - destruct (bool_decide (Some client_id <> exclude) && active (heap s r)).
    + unfold sock_send.
      destruct (send_raises s (socket (heap s r))) eqn:Hr.
      * intros (? & ? & ? & Hl)%IH. split_and!; [done..|].
        intros _. apply Hl. left. by destruct l.
      * intros (? & ? & ? & Hl)%IH. split_and!; [done..|].
        intros [?|Hex%Exists_cons]; [by apply Hl; left|].
        destruct Hex as [Hex|Hex]; [congruence|]. apply Hl. by right.
    + intros (? & ? & ? & Hl)%IH. by split_and!.
Qed.

Lemma broadcast_system_message_ok
    (disconnect : pystr -> server -> result unit)
    (message : pystr) (exclude : option pystr) (s : server) :
  lock_held s = false ->
  Forall (fun sock => send_raises s sock = false)
         (recipients exclude (clients s) (heap s)) ->
  broadcast_system_message disconnect message exclude s =
  Returned tt
    (set_sent s (sent s ++ map (fun sock => (sock, message))
                               (recipients exclude (clients s) (heap s)))).
Proof.
  intros Hlock Hok. unfold broadcast_system_message.
  rewrite with_lock_free by done.
  rewrite (fan_out_ok message exclude (clients (set_lock s true))
             (set_lock s true) []) by done.
  simpl. f_equal. destruct s. simpl in *. by subst.
Qed.



(** With the lock free, a send that raises during
    [broadcast_system_message] makes the call block: the removal of the
    collected client runs inside the [with self.lock] of the broadcast and
    asks for the lock again. The client stays in the registry. *)
Theorem broadcast_system_message_blocks_on_failure
    (fuel : nat) (message : pystr) (exclude : option pystr) (s : server) :
  lock_held s = false ->
  Exists (fun sock => send_raises s sock = true)
         (recipients exclude (clients s) (heap s)) ->
  exists s',
    broadcast_system_message (disconnect_client (S fuel)) message exclude s
    = Deadlock s'
    /\ lock_held s' = true /\ clients s' = clients s.
Proof.
  intros Hlock Hbad. unfold broadcast_system_message.
  rewrite with_lock_free by done.
  destruct (fan_out message exclude (clients (set_lock s true))
              (set_lock s true) []) as [s1 l1] eqn:Hfan.
  apply fan_out_frame in Hfan as (Hc & Hh & Hl & Hne).
  destruct l1 as [|client_id l1]; [by destruct Hne; [right|]|].
  exists s1. cbn [for_each].
  rewrite disconnect_client_held by done. by split_and!.
Qed.

Lemma broadcast_system_message_blocks_on_failure_witness :
  exists s',
    broadcast_system_message (disconnect_client 1) (str "notice") None
      (mk_server (clients two_clients) (heap two_clients) 2 init true false
                 [] [] (fun sock => bool_decide (sock = 2%nat))
                 (str "12:00:00"))
    = Deadlock s'
    /\ lock_held s' = true /\ clients s' = clients two_clients.
Proof.
  apply (broadcast_system_message_blocks_on_failure 0 (str "notice") None
           (mk_server (clients two_clients) (heap two_clients) 2 init true
                      false [] [] (fun sock => bool_decide (sock = 2%nat))
                      (str "12:00:00"))).
  - reflexivity.
  - apply Exists_cons_tl, Exists_cons_hd. reflexivity.
Defined.

(** ** [send_to_client] and [disconnect_client] on every server *)

Lemma send_to_client_spec fuel client_id message s :
  lock_held s = false ->
  match send_to_client (S fuel) client_id message s with
  | Returned true s' =>
      exists r, dict_get (clients s) client_id = Some r
        /\ active (heap s r) = true
        /\ s' = set_sent s (sent s ++ [(socket (heap s r), message)])
  | Returned false s' =>
      s' = s
      /\ (dict_get (clients s) client_id = None
          \/ exists r, dict_get (clients s) client_id = Some r
               /\ active (heap s r) = false)
  | Deadlock s' =>
      exists r, dict_get (clients s) client_id = Some r
        /\ send_raises s (socket (heap s r)) = true
        /\ s' = set_lock s true
  | NoFuel => False
  end.
Proof.
  intros Hlock.
  assert (Hs : set_lock (set_lock s true) false = s)
    by (destruct s; simpl in *; by subst).
  unfold send_to_client. rewrite with_lock_free by done.
  cbn [clients set_lock heap].
  destruct (dict_get (clients s) client_id) as [r|] eqn:Hget;
    [|rewrite Hs; by eauto].
  destruct (active (heap s r)) eqn:Hact; [|rewrite Hs; by eauto].
  unfold sock_send. cbn [send_raises set_lock].
  destruct (send_raises s (socket (heap s r))) eqn:Hsend.
  - rewrite disconnect_client_held by done. by eauto.
  - exists r. split_and!; [done..|].
    destruct s. simpl in *. by subst.
Qed.



(** With the lock free, [disconnect_client] returns without any change for
    an identifier that is not registered. For a registered one it marks the
    [client_info] inactive, closes the socket once, removes the entry and
    then blocks with the lock held, before any departure notice is sent. *)
Theorem disconnect_client_cases (fuel : nat) (client_id : pystr)
    (s : server) :
  lock_held s = false ->
  (dict_get (clients s) client_id = None ->
   disconnect_client (S fuel) client_id s = Returned tt s)
  /\ (forall r, dict_get (clients s) client_id = Some r ->
      exists s', disconnect_client (S fuel) client_id s = Deadlock s'
        /\ sent s' = sent s
        /\ closed s' = closed s ++ [socket (heap s r)]
        /\ active (heap s' r) = false
        /\ clients s' = dict_del (clients s) client_id
        /\ lock_held s' = true).
Proof.
  intros Hlock. split.
  - intros Hget. simpl. rewrite with_lock_free by done. simpl.
    rewrite Hget. f_equal. destruct s. simpl in *. by subst.
  - intros r Hget. eexists. split.
    + by apply disconnect_client_present.
    + simpl. split_and!; try done. by rewrite fn_lookup_insert.
Qed.

Lemma disconnect_client_cases_witness :
  disconnect_client 1 (str "Client_9") two_clients = Returned tt two_clients.
Proof.
  assert (H : lock_held two_clients = false) by reflexivity.
  destruct (disconnect_client_cases 0 (str "Client_9") two_clients H)
    as [H1 _].
  apply H1. reflexivity.
Defined.

(** ** Commands *)

Lemma send_to_client__sent fuel client_id message s :
  lock_held s = false ->
  match send_to_client_ (S fuel) client_id message s with
  | Returned _ s' | Deadlock s' =>
      sent s' = sent s
      \/ exists r, dict_get (clients s) client_id = Some r
           /\ sent s' = sent s ++ [(socket (heap s r), message)]
  | NoFuel => False
  end.
Proof.
  intros Hlock. unfold send_to_client_.
  pose proof (send_to_client_spec fuel client_id message s Hlock) as H.
  destruct (send_to_client (S fuel) client_id message s) as [[|] s'|s'|].
  - destruct H as (r & Hr & _ & ->). right. by exists r.
  - destruct H as [-> _]. by left.
  - destruct H as (r & _ & _ & ->). by left.
  - done.
Qed.

(** With the lock free, no command makes the server send to anybody but
    its issuer: [handle_command] hands at most one text to a socket, and
    that socket is the one registered for the issuing client. This holds
    for every command text, the [/bf] programs included, and also when the
    call blocks. *)
Theorem handle_command_only_issuer (fuel : nat) (client_id command : pystr)
    (s : server) :
  lock_held s = false ->
  match handle_command (S fuel) client_id command s with
  | Returned _ s' | Deadlock s' =>
      sent s' = sent s
      \/ exists r message, dict_get (clients s) client_id = Some r
           /\ sent s' = sent s ++ [(socket (heap s r), message)]
  | NoFuel => False
  end.
Proof.
  intros Hlock.
  assert (Hsend : forall message s1,
    lock_held s1 = false -> sent s1 = sent s -> clients s1 = clients s ->
    heap s1 = heap s ->
    match send_to_client_ (S fuel) client_id message s1 with
    | Returned _ s' | Deadlock s' =>
        sent s' = sent s
        \/ exists r message, dict_get (clients s) client_id = Some r
             /\ sent s' = sent s ++ [(socket (heap s r), message)]
    | NoFuel => False
    end).
  { intros message s1 Hl Hs Hc Hh.
    pose proof (send_to_client__sent fuel client_id message s1 Hl) as H.
    rewrite Hs, Hc, Hh in H.
    destruct (send_to_client_ (S fuel) client_id message s1); [| |done];
      (destruct H as [H|(r & Hr & H)]; [by left|right; by eauto]). }
  unfold handle_command.
  repeat case_bool_decide.
  - rewrite with_lock_free by done. by apply Hsend.
  - by apply Hsend.
  - destruct (startswith command (str "/bf ")).
    + destruct (execute_prepared (drop 4 command) (bf s) (str "Hello!") 5000)
        as (ok & bf' & -> & _).
      by apply Hsend.
    + by apply Hsend.
  - destruct (startswith command (str "/bf ")).
    + destruct (execute_prepared (drop 4 command) (bf s) (str "Hello!") 5000)
        as (ok & bf' & -> & _).
      by apply Hsend.
    + by apply Hsend.
Qed.

Lemma handle_command_only_issuer_witness :
  match handle_command 1 (str "Client_2") (str "/help") two_clients with
  | Returned _ s' | Deadlock s' =>
      sent s' = sent two_clients
      \/ exists r message,
           dict_get (clients two_clients) (str "Client_2") = Some r
           /\ sent s' = sent two_clients ++
                        [(socket (heap two_clients r), message)]
  | NoFuel => False
  end.
Proof.
  apply (handle_command_only_issuer 0 (str "Client_2") (str "/help")
           two_clients).
  reflexivity.
Defined.

(** ** Shutdown *)

Lemma close_all_spec items : forall s,
  close_all items s =
  set_closed s (closed s ++ map (fun p => socket (heap s p.2)) items).
Proof.
  induction items as [|[k r] items IH]; intros s; simpl.
  - destruct s. unfold set_closed. simpl. by rewrite app_nil_r.
  - rewrite IH. unfold sock_close, set_closed. simpl.
    by rewrite <- app_assoc.
Qed.

(** With the lock free, [cleanup_server] clears the running flag, calls
    [close] once on the socket of every registered client, in the order of
    the registry, empties the registry and closes the listening socket
    last; it sends nothing. With the lock held it blocks, the running flag
    cleared and nothing closed. *)
Theorem cleanup_server_closes_all (server_socket : nat) (s : server) :
  (lock_held s = false ->
   exists s', cleanup_server server_socket s = Returned tt s'
     /\ running s' = false /\ clients s' = [] /\ lock_held s' = false
     /\ sent s' = sent s
     /\ closed s' = closed s
                    ++ map (fun p => socket (heap s p.2)) (clients s)
                    ++ [server_socket])
  /\ (lock_held s = true ->
      cleanup_server server_socket s = Deadlock (set_running s false)).
Proof.
  split; intros Hlock; unfold cleanup_server.
  - rewrite with_lock_free by done. rewrite close_all_spec.
    eexists. split; [reflexivity|]. simpl.
    split_and!; try done. by rewrite <- app_assoc.
  - unfold with_lock. simpl. by rewrite Hlock.
Qed.

Lemma cleanup_server_closes_all_witness :
  exists s', cleanup_server 0 two_clients = Returned tt s'
    /\ running s' = false /\ clients s' = [] /\ lock_held s' = false
    /\ sent s' = sent two_clients
    /\ closed s' = closed two_clients
                   ++ map (fun p => socket (heap two_clients p.2))
                          (clients two_clients)
                   ++ [0%nat].
Proof.
  destruct (cleanup_server_closes_all 0 two_clients) as [H _].
  apply H. reflexivity.
Defined.

(** ** Chat messages *)

(** [encrypt_message] and [decrypt_message] do not depend on the machine
    they find. *)
Lemma encrypt_message_fresh bf x :
  encrypt_message bf x = encrypt_message init x.
Proof. reflexivity. Qed.

Lemma encrypt_message_total bf x :
  exists y bf', encrypt_message bf x = Some (y, bf').
Proof.
  destruct (caesar_execute_any 43 (or_introl eq_refl) bf x) as (e' & Hex & _).
  unfold encrypt_message. rewrite encrypt_program_caesar, Hex.
  case_bool_decide; by eauto.
Qed.

(** A text of code points 1..126 as it is on the wire decrypts to itself on
    every machine. *)
Lemma wire_roundtrip (x : pystr) :
  Forall (fun c => 1 <= c <= 126) x ->
  exists y, (forall bf, exists bf', encrypt_message bf x = Some (y, bf'))
    /\ (forall bf, exists bf', decrypt_message bf y = Some (x, bf')).
Proof.
  intros Hx.
  assert (Hnz : Forall (fun a => a <> 0) x)
    by (eapply Forall_impl; [exact Hx|simpl; lia]).
  assert (Hup : map (shift 43) x = map (fun c => c + 1) x).
  { apply Forall_fmap_ext_1. eapply Forall_impl; [exact Hx|].
    apply shift_up. }
  assert (Hup' : Forall (fun c => 2 <= c <= 127) (map (fun c => c + 1) x)).
  { rewrite Forall_fmap. eapply Forall_impl; [exact Hx|]. simpl. lia. }
  destruct (decide (len x < 10000)) as [Hlen|Hlen].
  - exists (map (fun c => c + 1) x). split; intros bf.
    + destruct (caesar_execute 43 (or_introl eq_refl) bf x Hnz)
        as (e1 & He1 & Hout1).
      exists e1. unfold encrypt_message. rewrite encrypt_program_caesar, He1.
      rewrite bool_decide_eq_true_2 by done.
      unfold get_output_string. rewrite Hout1 by done.
      rewrite Hup, filter_ascii_all, or_else_map; [done|].
      eapply Forall_impl; [exact Hup'|]. simpl. lia.
    + destruct (caesar_execute 45 (or_intror eq_refl) bf
                  (map (fun c => c + 1) x)) as (e2 & He2 & Hout2).
      { eapply Forall_impl; [exact Hup'|]. simpl. lia. }
      assert (Hlen' : len (map (fun c => c + 1) x) < 10000)
        by (unfold len in *; by rewrite length_map).
      exists e2. unfold decrypt_message. rewrite decrypt_program_caesar, He2.
      rewrite bool_decide_eq_true_2 by done.
      unfold get_output_string. rewrite Hout2 by done.
      assert (Hback : map (shift 45) (map (fun c => c + 1) x) = x).
      { rewrite <- list_fmap_compose. rewrite <- (list_fmap_id x) at 2.
        apply Forall_fmap_ext_1. eapply Forall_impl; [exact Hx|]. simpl.
        intros c Hc. by apply shift_down. }
      rewrite Hback, filter_ascii_all, or_else_unmap; [done|].
      eapply Forall_impl; [exact Hx|]. simpl. lia.
  - exists x. split; intros bf.
    + destruct (caesar_execute 43 (or_introl eq_refl) bf x Hnz)
        as (e1 & He1 & _).
      exists e1. unfold encrypt_message. rewrite encrypt_program_caesar, He1.
      by rewrite bool_decide_eq_false_2 by done.
    + destruct (caesar_execute 45 (or_intror eq_refl) bf x Hnz)
        as (e1 & He1 & _).
      exists e1. unfold decrypt_message. rewrite decrypt_program_caesar, He1.
      by rewrite bool_decide_eq_false_2 by done.
Qed.

(** The sends of [broadcast_message] when none of them raises: every
    recipient gets the same encrypted text. *)
Lemma fan_out_encrypted_ok broadcast_msg sender_id wire bf1 items :
  encrypt_message init broadcast_msg = Some (wire, bf1) ->
  forall s l,
    Forall (fun sock => send_raises s sock = false)
           (recipients (Some sender_id) items (heap s)) ->
    exists s',
      fan_out_encrypted broadcast_msg sender_id items s l = Returned l s'
      /\ sent s' = sent s ++ map (fun sock => (sock, wire))
                                 (recipients (Some sender_id) items (heap s))
      /\ clients s' = clients s /\ heap s' = heap s
      /\ lock_held s' = lock_held s /\ running s' = running s
      /\ send_raises s' = send_raises s.
Proof.
  intros Henc.
  induction items as [|[client_id r] items IH]; intros s l Hok; simpl.
  - exists s. rewrite app_nil_r. by split_and!.
  - simpl in Hok.
    rewrite (bool_decide_ext (Some client_id <> Some sender_id)
                             (client_id <> sender_id)) in *
      by (split; congruence).
    destruct (bool_decide (client_id <> sender_id) && active (heap s r));
      [|by apply IH].
    apply Forall_cons in Hok as [Hr Hok].
    rewrite encrypt_message_fresh, Henc.
    unfold sock_send. cbn [send_raises set_bf heap]. rewrite Hr.
    destruct (IH (set_sent (set_bf s bf1)
                    (sent (set_bf s bf1) ++ [(socket (heap s r), wire)])) l)
      as (s' & -> & Hsent & ? & ? & ? & ? & ?); [done|].
    exists s'. split_and!; try done.
    rewrite Hsent. simpl. by rewrite <- app_assoc.
Qed.

Lemma broadcast_message_ok
    (disconnect : pystr -> server -> result unit)
    (sender_id message : pystr) (s : server) :
  lock_held s = false ->
  Forall (fun sock => send_raises s sock = false)
         (recipients (Some sender_id) (clients s) (heap s)) ->
  exists wire bf1 s',
    encrypt_message init (sender_id ++ str ": " ++ message) = Some (wire, bf1)
    /\ broadcast_message disconnect sender_id message s = Returned tt s'
    /\ sent s' = sent s ++ map (fun sock => (sock, wire))
                   (recipients (Some sender_id) (clients s) (heap s))
    /\ clients s' = clients s /\ heap s' = heap s /\ lock_held s' = false
    /\ running s' = running s.
Proof.
  intros Hlock Hok.
  destruct (encrypt_message_total init (sender_id ++ str ": " ++ message))
    as (wire & bf1 & Henc).
  destruct (fan_out_encrypted_ok _ sender_id wire bf1
              (clients (set_lock s true)) Henc (set_lock s true) [])
    as (s1 & Hfan & Hsent & Hc & Hh & _ & Hrun & _); [done|].
  exists wire, bf1, (set_lock s1 false). split; [done|].
  unfold broadcast_message. rewrite with_lock_free by done.
  rewrite Hfan. by split_and!.
Qed.



(** ** The handler of a connection *)

Lemma handle_client_loop_entry fuel events client_id r s :
  dict_get (clients s) client_id = Some r ->
  handle_client fuel events client_id s =
  match handle_client_loop fuel events client_id r s with
  | Returned _ s' => disconnect_client fuel client_id s'
  | Deadlock s' => Deadlock s'
  | NoFuel => NoFuel
  end.
Proof. intros H. unfold handle_client. by rewrite H. Qed.

Lemma validate_message_Forall msg :
  validate_message msg = true ->
  msg <> [] /\ Forall (fun c => 32 <= c <= 126) msg.
Proof.
  unfold validate_message. case_bool_decide; [done|]. simpl.
  destruct (1000 <? len msg); [done|]. by intros ?%all_printable_Forall.
Qed.

(** A chat message through the server. When a registered, active client
    sends the encryption of a valid text that is no command, the handler
    decrypts and validates it and hands one text to every other active
    client, and goes on to the next [recv] with nothing else changed. Every
    receiver decrypts that text to [client_id: text]. *)
Theorem handle_client_relays (fuel : nat) (events : list recv_event)
    (client_id : pystr) (r : nat) (s : server)
    (bf_sender bf_sender' : engine) (msg data : pystr) :
  dict_get (clients s) client_id = Some r ->
  running s = true -> active (heap s r) = true -> lock_held s = false ->
  Forall (fun c => 1 <= c <= 126) client_id ->
  validate_message msg = true -> startswith msg (str "/") = false ->
  encrypt_message bf_sender msg = Some (data, bf_sender') ->
  Forall (fun sock => send_raises s sock = false)
         (recipients (Some client_id) (clients s) (heap s)) ->
  exists wire s',
    handle_client fuel (recv_data data :: events) client_id s
    = handle_client fuel events client_id s'
    /\ sent s' = sent s ++ map (fun sock => (sock, wire))
                   (recipients (Some client_id) (clients s) (heap s))
    /\ clients s' = clients s /\ heap s' = heap s
    /\ lock_held s' = false /\ running s' = true
    /\ (forall bf_receiver, exists bf',
          decrypt_message bf_receiver wire
          = Some (client_id ++ str ": " ++ msg, bf')).
Proof.
  intros Hget Hrun Hact Hlock Hid Hvalid Hcmd Henc Hok.
  destruct (validate_message_Forall msg Hvalid) as [Hne Hmsg].
  destruct (wire_roundtrip msg) as (y & Hy & Hback).
  { eapply Forall_impl; [exact Hmsg|]. simpl. lia. }
  destruct (Hy bf_sender) as (bf1 & Hy1). rewrite Henc in Hy1.
  injection Hy1 as <- _.
  destruct (Hback (bf s)) as (bf2 & Hdec).
  assert (Hdata : data <> []).
  { intros ->. vm_compute in Hdec. by injection Hdec as <-. }
  destruct (broadcast_message_ok (disconnect_client fuel) client_id msg
              (set_bf s bf2))
    as (wire & bf3 & s' & Hwire & Hbc & Hsent & Hc & Hh & Hl & Hr);
    [done..|].
  destruct (wire_roundtrip (client_id ++ str ": " ++ msg))
    as (y2 & Hy2 & Hback2).
  { rewrite !Forall_app. split_and!; [done| |].
    - repeat constructor; done.
    - eapply Forall_impl; [exact Hmsg|]. simpl. lia. }
  destruct (Hy2 init) as (bf4 & Hy2'). rewrite Hwire in Hy2'.
  injection Hy2' as <- _.
  exists wire, s'. split_and!; try done; [|by rewrite Hr].
  rewrite (handle_client_loop_entry _ _ _ r s') by by rewrite Hc.
  rewrite (handle_client_loop_entry _ _ _ r s) by done.
  destruct data as [|d data]; [done|].
  cbn [handle_client_loop]. rewrite Hrun, Hact. cbn [andb].
  rewrite Hdec. cbn zeta. rewrite Hvalid, Hcmd. cbn [negb].
  by rewrite Hbc.
Qed.

Lemma handle_client_relays_witness :
  exists wire s',
    handle_client 1 [recv_data (str "ij"); recv_data []] (str "Client_1")
      two_clients
    = handle_client 1 [recv_data []] (str "Client_1") s'
    /\ sent s' = sent two_clients ++ map (fun sock => (sock, wire))
                   (recipients (Some (str "Client_1")) (clients two_clients)
                      (heap two_clients))
    /\ clients s' = clients two_clients /\ heap s' = heap two_clients
    /\ lock_held s' = false /\ running s' = true
    /\ (forall bf_receiver, exists bf',
          decrypt_message bf_receiver wire
          = Some (str "Client_1" ++ str ": " ++ str "hi", bf')).
Proof.
  destruct (encrypt_message init (str "hi")) as [[data bf1]|] eqn:Henc;
    [|vm_compute in Henc; discriminate Henc].
  assert (Hdata : data = str "ij")
    by (vm_compute in Henc; by injection Henc as <- _).
  rewrite Hdata in Henc.
  apply (handle_client_relays 1 [recv_data []] (str "Client_1") 1
           two_clients init bf1 (str "hi") (str "ij")).
  - reflexivity.
  - reflexivity.
  - reflexivity.
  - reflexivity.
  - repeat constructor; vm_compute; discriminate.
  - reflexivity.
  - reflexivity.
  - exact Henc.
  - repeat constructor.
Defined.

(** A payload that does not validate is not forwarded: the handler sends
    the notice "Invalid message format" to the sender alone and goes on to
    the next [recv]. *)
Theorem handle_client_rejects (fuel : nat) (events : list recv_event)
    (client_id : pystr) (r : nat) (s : server)
    (data decrypted : pystr) (bf' : engine) :
  dict_get (clients s) client_id = Some r ->
  running s = true -> active (heap s r) = true -> lock_held s = false ->
  send_raises s (socket (heap s r)) = false ->
  data <> [] ->
  decrypt_message (bf s) data = Some (decrypted, bf') ->
  validate_message decrypted = false ->
  handle_client fuel (recv_data data :: events) client_id s
  = handle_client fuel events client_id
      (set_sent (set_bf s bf')
         (sent s ++ [(socket (heap s r), invalid_format)])).
Proof.
  intros Hget Hrun Hact Hlock Hsend Hdata Hdec Hvalid.
  rewrite (handle_client_loop_entry _ _ _ r s) by done.
  rewrite (handle_client_loop_entry _ _ _ r (set_sent _ _)) by done.
  destruct data as [|d data]; [done|].
  cbn [handle_client_loop]. rewrite Hrun, Hact. cbn [andb].
  rewrite Hdec. cbn zeta. rewrite Hvalid. cbn [negb].
  by rewrite (send_to_client_ok _ _ _ (set_bf s bf') r).
Qed.

Lemma handle_client_rejects_witness :
  handle_client 1 [recv_data [1; 2]; recv_data []] (str "Client_1")
    two_clients
  = handle_client 1 [recv_data []] (str "Client_1")
      (set_sent (set_bf two_clients
                   (mk_engine (replicate 1000 0) 0 [] [0; 1]))
         (sent two_clients ++
          [(socket (heap two_clients 1%nat), invalid_format)])).
Proof.
  apply (handle_client_rejects 1 [recv_data []] (str "Client_1") 1
           two_clients [1; 2] [0; 1]
           (mk_engine (replicate 1000 0) 0 [] [0; 1])).
  - reflexivity.
  - reflexivity.
  - reflexivity.
  - reflexivity.
  - reflexivity.
  - discriminate.
  - vm_compute. reflexivity.
  - reflexivity.
Defined.

(** ** Admission *)

Lemma ord_inj c1 c2 : ord c1 = ord c2 -> c1 = c2.
Proof.
  unfold ord. intros H%Nat2Z.inj.
  by rewrite <- (ascii_nat_embedding c1), <- (ascii_nat_embedding c2), H.
Qed.

Lemma str_inj s1 : forall s2, str s1 = str s2 -> s1 = s2.
Proof.
  induction s1 as [|c1 s1 IH]; intros [|c2 s2]; simpl; try done.
  intros [= Hc%ord_inj Hs%IH]. by subst.
Qed.

Lemma client_name_inj k1 k2 : client_name k1 = client_name k2 -> k1 = k2.
Proof.
  unfold client_name. intros H%app_inv_head%str_inj.
  by apply (inj pretty).
Qed.

Lemma dict_set_fresh d client_id r :
  client_id ∉ map fst d -> dict_set d client_id r = d ++ [(client_id, r)].
Proof.
  induction d as [|[k r'] d IH]; simpl; [done|].
  intros [Hk Hd]%not_elem_of_cons.
  rewrite bool_decide_eq_false_2 by done. by rewrite IH.
Qed.

Lemma recipients_app exclude items1 items2 heap :
  recipients exclude (items1 ++ items2) heap
  = recipients exclude items1 heap ++ recipients exclude items2 heap.
Proof.
  induction items1 as [|[k r] items1 IH]; simpl; [done|].
  destruct (bool_decide (Some k <> exclude) && active (heap r)); simpl;
    by rewrite IH.
Qed.

Lemma recipients_ext exclude items (heap1 heap2 : nat -> client_info) :
  (forall r, r ∈ map snd items -> heap1 r = heap2 r) ->
  recipients exclude items heap1 = recipients exclude items heap2.
Proof.
  induction items as [|[k r] items IH]; simpl; [done|]. intros Hext.
  rewrite (Hext r) by apply list_elem_of_here.
  rewrite IH; [done|]. intros r' Hr'. apply Hext. by apply list_elem_of_further.
Qed.

Lemma recipients_other client_id items heap :
  client_id ∉ map fst items ->
  recipients (Some client_id) items heap = recipients None items heap.
Proof.
  induction items as [|[k r] items IH]; simpl; [done|].
  intros [Hk Hitems]%not_elem_of_cons.
  rewrite IH by done.
  by rewrite (bool_decide_eq_true_2 (Some k <> Some client_id))
    by congruence.
Qed.

(** The body of the accept loop, with the lock free and no send raising.
    The new client gets the identifier made from the next value of the
    counter, which no entry of the registry has; its entry is added at the
    end, active, and the handler is started. The welcome goes to the new
    socket, then the join notice to every active client that was
    registered before. The identifiers of the registry stay distinct and
    made from values the counter has had. *)
Theorem accept_client_fresh_id (fuel client_socket : nat)
    (address : pystr * Z) (now : Z) (r : nat) (s : server) :
  lock_held s = false ->
  0 <= client_counter s ->
  ids_bounded s ->
  NoDup (map fst (clients s)) ->
  r ∉ map snd (clients s) ->
  (forall sock, send_raises s sock = false) ->
  exists s',
    accept_client fuel client_socket address now r s
    = Returned (Some (client_name (client_counter s + 1))) s'
    /\ (client_name (client_counter s + 1) ∉ map fst (clients s))
    /\ clients s' = clients s ++ [(client_name (client_counter s + 1), r)]
    /\ heap s' r = mk_client_info client_socket address now true
    /\ client_counter s' = client_counter s + 1
    /\ sent s' = sent s
         ++ ((client_socket, welcome (client_name (client_counter s + 1)))
             :: map (fun sock =>
                       (sock, joined_the_chat
                                (client_name (client_counter s + 1))))
                    (recipients None (clients s) (heap s)))
    /\ NoDup (map fst (clients s'))
    /\ ids_bounded s'
    /\ lock_held s' = false.
Proof.
  intros Hlock Hcount Hids Hdup Hr Hsend.
  set (client_id := client_name (client_counter s + 1)).
  assert (Hfresh : client_id ∉ map fst (clients s)).
  { intros (k & Hk & Heq%client_name_inj)%Hids. lia. }
  unfold accept_client. rewrite with_lock_free by done.
  cbn [set_client_counter client_counter set_heap set_clients clients
       set_lock heap].
  fold client_id. rewrite dict_set_fresh by done.
  unfold sock_send at 1.
  match goal with
  | |- context [send_raises ?x client_socket] =>
      change (send_raises x client_socket) with (send_raises s client_socket)
  end.
  rewrite Hsend.
  match goal with
  | |- context [broadcast_system_message ?d ?m ?e ?s2] =>
      rewrite (broadcast_system_message_ok d m e s2);
        [|done|apply Forall_forall; intros sock _; apply Hsend]
  end.
  eexists. split; [reflexivity|].
  cbn [clients heap client_counter sent lock_held set_sent set_lock
       set_clients set_heap set_client_counter].
  split_and!; try done.
  - by rewrite fn_lookup_insert.
  - rewrite <- app_assoc. do 3 f_equal.
    rewrite recipients_app. simpl.
    rewrite (bool_decide_eq_false_2 (Some client_id <> Some client_id))
      by (intros H; by apply H).
    simpl. rewrite app_nil_r, recipients_other by done.
    apply recipients_ext. intros r' Hr'.
    apply fn_lookup_insert_ne. by intros ->.
  - rewrite map_app. apply NoDup_app. split_and!; [done| |].
    + intros x Hx [->|[]%elem_of_nil]%elem_of_cons. done.
    + apply NoDup_singleton.
  - unfold ids_bounded.
    cbn [clients client_counter set_sent set_lock set_clients set_heap
         set_client_counter].
    intros x. rewrite map_app.
    intros [Hx|[->|[]%elem_of_nil]%elem_of_cons]%elem_of_app.
    + destruct (Hids x Hx) as (k & Hk & ->). exists k.
      split; [simpl; lia|done].
    + exists (client_counter s + 1). split; [simpl; lia|done].
Qed.

Lemma accept_client_fresh_id_witness :
  exists s',
    accept_client 1 7 (str "10.0.0.7", 4000) 0 7 two_clients
    = Returned (Some (client_name (client_counter two_clients + 1))) s'
    /\ (client_name (client_counter two_clients + 1)
        ∉ map fst (clients two_clients))
    /\ clients s' = clients two_clients
                    ++ [(client_name (client_counter two_clients + 1), 7%nat)]
    /\ heap s' 7%nat = mk_client_info 7 (str "10.0.0.7", 4000) 0 true
    /\ client_counter s' = client_counter two_clients + 1
    /\ sent s' = sent two_clients
         ++ ((7%nat, welcome (client_name (client_counter two_clients + 1)))
             :: map (fun sock =>
                       (sock, joined_the_chat
                                (client_name (client_counter two_clients + 1))))
                    (recipients None (clients two_clients)
                                (heap two_clients)))
    /\ NoDup (map fst (clients s'))
    /\ ids_bounded s'
    /\ lock_held s' = false.
Proof.
  apply (accept_client_fresh_id 1 7 (str "10.0.0.7", 4000) 0 7 two_clients).
  - reflexivity.
  - vm_compute. discriminate.
  - intros x Hx. vm_compute in Hx.
    apply elem_of_cons in Hx as [->|Hx];
      [exists 1; split; [vm_compute; split; discriminate|reflexivity]|].
    apply elem_of_cons in Hx as [->|Hx];
      [exists 2; split; [vm_compute; split; discriminate|reflexivity]|].
    by apply elem_of_nil in Hx.
  - vm_compute. repeat constructor.
    + intros H. apply elem_of_cons in H as [H|H]; [discriminate H|].
      by apply elem_of_nil in H.
    + intros H. by apply elem_of_nil in H.
  - vm_compute. intros H.
    apply elem_of_cons in H as [H|H]; [discriminate H|].
    apply elem_of_cons in H as [H|H]; [discriminate H|].
    by apply elem_of_nil in H.
  - reflexivity.
Defined.

(** ** Notices sent in clear *)

(** The welcome line is sent as it is, and the client decrypts whatever it
    receives: what it gets to display is the welcome without its first
    character (U+1F9E0 leaves 0..127 when shifted) and with every other
    character one code point lower. *)
Theorem welcome_displayed_shifted (bf : engine) (client_id : pystr) :
  Forall (fun c => 32 <= c <= 126) client_id ->
  len client_id < 9000 ->
  exists bf',
    decrypt_message bf (welcome client_id)
    = Some (map (fun c => c - 1)
                (str " Welcome to Brainfuck Chat! You are " ++ client_id),
            bf').
Proof.
  intros Hid Hlen.
  set (t := str " Welcome to Brainfuck Chat! You are " ++ client_id).
  assert (Ht : Forall (fun c => 32 <= c <= 126) t).
  { apply Forall_app. split; [|done]. repeat constructor; done. }
  assert (Hw : welcome client_id = 129504 :: t) by done.
  destruct (caesar_execute 45 (or_intror eq_refl) bf (welcome client_id))
    as (e' & Hex & Hout).
  { rewrite Hw. constructor; [done|].
    eapply Forall_impl; [exact Ht|]. simpl. lia. }
  assert (Hl : len (welcome client_id) < 10000).
  { rewrite Hw. unfold t, len in *.
    rewrite length_cons, length_app. simpl length. lia. }
  exists e'. unfold decrypt_message. rewrite decrypt_program_caesar, Hex.
  rewrite bool_decide_eq_true_2 by done.
  unfold get_output_string. rewrite Hout by done. rewrite Hw.
  assert (Hmap : map (shift 45) t = map (fun c => c - 1) t).
  { apply Forall_fmap_ext_1. eapply Forall_impl; [exact Ht|].
    intros c Hc. simpl in Hc. unfold shift. simpl.
    apply Z.mod_small. lia. }
  cbn [map]. rewrite Hmap.
  rewrite filter_cons_False by (vm_compute; intros [_ H]; by apply H).
  rewrite filter_ascii_all.
  - unfold t at 1. reflexivity.
  - rewrite Forall_fmap. eapply Forall_impl; [exact Ht|]. simpl. lia.
Qed.

Lemma welcome_displayed_shifted_witness :
  exists bf',
    decrypt_message init (welcome (str "Client_1"))
    = Some (map (fun c => c - 1)
                (str " Welcome to Brainfuck Chat! You are "
                 ++ str "Client_1"),
            bf').
Proof.
  apply (welcome_displayed_shifted init (str "Client_1")).
  - repeat constructor; vm_compute; discriminate.
  - vm_compute. reflexivity.
Defined.
